(** * ciSignature: the resolved signature of a method

    A shallow embedding of [src/hotspot/share/ci/ciSignature.cpp].

    A [ciSignature] holds the descriptor symbol, the accessing class, the
    array [_types] of resolved element types (parameters first, the return
    type last) and the cached [_size] / [_count].  C++ [assert]s are
    modelled as failures of a small error monad, pointer identity of
    canonical [ciType] objects as equality of the values below.  The
    [int]s [_size], [_count] and [index] are integers of Z: a descriptor
    symbol is at most 65535 bytes long, so the two counters never leave
    the range of an int. *)

From Stdlib Require Import String List ZArith Bool Lia.
Import ListNotations.
Local Open Scope Z_scope.

(** ** Assertion failures *)

Inductive failure : Type :=
| OutOfBounds        (* ciSignature: assert(index < _count, "out of bounds") *)
| IllegalIndex       (* GrowableArray::at: "illegal index" *)
| NotAValueType      (* ciWrapper: "should only be used for value types" *)
| NeedOriginOfAccess (* assert(accessing_klass != NULL, "need origin of access") *).

Inductive result (A : Type) : Type :=
| Ok (a : A)
| Fail (f : failure).
Arguments Ok {A} a.
Arguments Fail {A} f.

Definition bind {A B : Type} (r : result A) (k : A -> result B) : result B :=
  match r with
  | Ok a => k a
  | Fail f => Fail f
  end.

Definition vmassert (b : bool) (f : failure) : result unit :=
  if b then Ok tt else Fail f.

Declare Scope result_scope.
Delimit Scope result_scope with result.
Notation "x <- c1 ;; c2" := (bind c1 (fun x => c2))
  (at level 61, c1 at next level, right associativity) : result_scope.
Notation "c1 ;;; c2" := (bind c1 (fun _ => c2))
  (at level 61, right associativity) : result_scope.
Local Open Scope result_scope.

Definition succeeds {A : Type} (r : result A) : bool :=
  match r with Ok _ => true | Fail _ => false end.

(** ** Basic types and their word sizes (globalDefinitions.hpp) *)

Inductive BasicType : Type :=
| T_BOOLEAN | T_CHAR | T_FLOAT | T_DOUBLE | T_BYTE | T_SHORT | T_INT | T_LONG
| T_OBJECT | T_ARRAY | T_VALUETYPE | T_VOID.

Definition BasicType_eqb (a b : BasicType) : bool :=
  match a, b with
  | T_BOOLEAN, T_BOOLEAN | T_CHAR, T_CHAR | T_FLOAT, T_FLOAT
  | T_DOUBLE, T_DOUBLE | T_BYTE, T_BYTE | T_SHORT, T_SHORT
  | T_INT, T_INT | T_LONG, T_LONG | T_OBJECT, T_OBJECT
  | T_ARRAY, T_ARRAY | T_VALUETYPE, T_VALUETYPE | T_VOID, T_VOID => true
  | _, _ => false
  end.

(** Modelled from the spec: [is_reference_type] is declared outside this
    file; a token is a reference when it names a class, an array or a
    value type. *)
Definition is_reference_type (t : BasicType) : bool :=
  match t with
  | T_OBJECT | T_ARRAY | T_VALUETYPE => true
  | _ => false
  end.

(** Modelled from the spec: the table [type2size] is declared outside this
    file; a slot is one machine word, wide primitives take two, and void
    takes none. *)
Definition type2size (t : BasicType) : Z :=
  match t with
  | T_DOUBLE | T_LONG => 2
  | T_VOID => 0
  | _ => 1
  end.

(** ** The type entities (ciType and its subclasses)

    Modelled from the spec: the classes [ciType], [ciKlass],
    [ciInstanceKlass], [ciValueKlass] and [ciWrapper] are declared outside
    this file.  A class is identified by its canonical handle [id]; an
    instance class or array class may be an unloaded placeholder; a value
    class is always loaded.  A wrapper decorates another type and records
    that it is never null. *)

Inductive ciKlass : Type :=
| ciInstanceKlass (id : nat) (loaded : bool)
| ciValueKlass (id : nat)
| ciArrayKlass (id : nat) (loaded : bool).

Inductive ciType : Type :=
| ciPrimitive (bt : BasicType)
| ciKlassType (k : ciKlass)
| ciWrapper (inner : ciType).

(** Modelled from the spec: ciKlass::is_valuetype is declared outside this
    file; only a loaded value class reports as a value type. *)
Definition ciKlass_is_valuetype (k : ciKlass) : bool :=
  match k with ciValueKlass _ => true | _ => false end.

(** Modelled from the spec: ciKlass::is_instance_klass is declared
    outside this file; class references and value classes are instance
    classes, array classes are not. *)
Definition ciKlass_is_instance_klass (k : ciKlass) : bool :=
  match k with ciArrayKlass _ _ => false | _ => true end.

(** Modelled from the spec: ciKlass::is_loaded is declared outside this
    file; it tells a resolved class from an unloaded placeholder. *)
Definition ciKlass_is_loaded (k : ciKlass) : bool :=
  match k with
  | ciInstanceKlass _ l => l
  | ciValueKlass _ => true
  | ciArrayKlass _ l => l
  end.

(** Modelled from the spec: ciKlass::basic_type is declared outside this
    file; every class is a one-word reference. *)
Definition ciKlass_basic_type (k : ciKlass) : BasicType :=
  match k with
  | ciInstanceKlass _ _ => T_OBJECT
  | ciValueKlass _ => T_VALUETYPE
  | ciArrayKlass _ _ => T_ARRAY
  end.

(** Identity of class entities: the canonical handle and the variant. *)
Definition ciKlass_eqb (a b : ciKlass) : bool :=
  match a, b with
  | ciInstanceKlass i l, ciInstanceKlass j m => Nat.eqb i j && Bool.eqb l m
  | ciValueKlass i, ciValueKlass j => Nat.eqb i j
  | ciArrayKlass i l, ciArrayKlass j m => Nat.eqb i j && Bool.eqb l m
  | _, _ => false
  end.

(** Modelled from the spec: ciType::make(BasicType) is declared outside
    this file; it gives the canonical entity of a primitive. *)
Definition ciType_make (bt : BasicType) : ciType := ciPrimitive bt.

(** Modelled from the spec: ciType::is_valuetype is declared outside this
    file; a primitive or a wrapper is not a value type. *)
Definition ciType_is_valuetype (t : ciType) : bool :=
  match t with
  | ciKlassType k => ciKlass_is_valuetype k
  | _ => false
  end.

Definition ciType_is_wrapper (t : ciType) : bool :=
  match t with ciWrapper _ => true | _ => false end.

(** Modelled from the spec: unwrap is declared outside this file;
    ciType::unwrap returns the receiver, ciWrapper::unwrap the wrapped
    type. *)
Definition ciType_unwrap (t : ciType) : ciType :=
  match t with
  | ciWrapper inner => inner
  | _ => t
  end.

(** Modelled from the spec: is_never_null is declared outside this file;
    only a wrapper answers true. *)
Definition ciType_is_never_null (t : ciType) : bool :=
  match t with ciWrapper _ => true | _ => false end.

(** Modelled from the spec: ciType::is_instance_klass is declared outside
    this file. *)
Definition ciType_is_instance_klass (t : ciType) : bool :=
  match t with
  | ciKlassType k => ciKlass_is_instance_klass k
  | _ => false
  end.

(** Modelled from the spec: [t->as_instance_klass()->is_loaded()] is
    declared outside this file; it is used only under
    [is_instance_klass]. *)
Definition ciType_is_loaded (t : ciType) : bool :=
  match t with
  | ciKlassType k => ciKlass_is_loaded k
  | _ => true
  end.

(** Modelled from the spec: ciType::basic_type is declared outside this
    file; a wrapper has the basic type of the type it wraps. *)
Fixpoint ciType_basic_type (t : ciType) : BasicType :=
  match t with
  | ciPrimitive bt => bt
  | ciKlassType k => ciKlass_basic_type k
  | ciWrapper inner => ciType_basic_type inner
  end.

(** Modelled from the spec: ciType::size is declared outside this file;
    it is the number of machine words of a value of the type. *)
Definition ciType_size (t : ciType) : Z := type2size (ciType_basic_type t).

(** Identity of type entities (the pointer comparison in [equals]). *)
Fixpoint ciType_eqb (a b : ciType) : bool :=
  match a, b with
  | ciPrimitive x, ciPrimitive y => BasicType_eqb x y
  | ciKlassType x, ciKlassType y => ciKlass_eqb x y
  | ciWrapper x, ciWrapper y => ciType_eqb x y
  | _, _ => false
  end.

(** The class invariant of ciWrapper: it wraps a value type. *)
Definition ciType_well_formed (t : ciType) : Prop :=
  match t with
  | ciWrapper inner => ciType_is_valuetype inner = true
  | _ => True
  end.

(** Modelled from the spec: ciEnv::make_never_null_wrapper is declared
    outside this file; a wrapper only wraps a value type, which the
    constructor of ciWrapper asserts. *)
Definition make_never_null_wrapper (t : ciType) : result ciType :=
  vmassert (ciType_is_valuetype t) NotAValueType ;;;
  Ok (ciWrapper t).

(** ** Descriptor symbols and the signature stream

    Modelled from the spec: [SignatureStream], [Symbol] and [ciSymbol] are
    declared outside this file.  The stream tokenizes a descriptor into the
    parameter tokens followed by the return-type token; a token has a basic
    type and, when it is a reference, the class name.  A symbol is interned,
    so two symbols are the same object exactly when they spell the same
    descriptor. *)

Record SigToken : Type := mkToken {
  tok_type : BasicType;
  tok_name : string
}.

Record ciSymbol : Type := mkSymbol {
  sym_params : list SigToken;
  sym_return : SigToken
}.

Definition SigToken_eqb (a b : SigToken) : bool :=
  BasicType_eqb (tok_type a) (tok_type b) && String.eqb (tok_name a) (tok_name b).

Fixpoint tokens_eqb (xs ys : list SigToken) : bool :=
  match xs, ys with
  | [], [] => true
  | x :: xs', y :: ys' => SigToken_eqb x y && tokens_eqb xs' ys'
  | _, _ => false
  end.

(** Modelled from the spec: ciSymbol::equals is declared outside this
    file; it is the identity of interned symbols. *)
Definition ciSymbol_equals (a b : ciSymbol) : bool :=
  tokens_eqb (sym_params a) (sym_params b) && SigToken_eqb (sym_return a) (sym_return b).

(** Modelled from the spec: Symbol::is_Q_method_signature is declared
    outside this file; it inspects the raw descriptor for the never-null
    marker on the return type. *)
Definition is_Q_method_signature (s : ciSymbol) : bool :=
  BasicType_eqb (tok_type (sym_return s)) T_VALUETYPE.

(** Modelled from the spec: SignatureStream is declared outside this
    file.  The stream is the token under the cursor and the tokens still
    to come; the cursor is at the return type when nothing follows it. *)
Record SignatureStream : Type := mkStream {
  ss_cur : SigToken;
  ss_rest : list SigToken
}.

Definition SignatureStream_new (s : ciSymbol) : SignatureStream :=
  match sym_params s with
  | [] => mkStream (sym_return s) []
  | p :: ps => mkStream p (ps ++ [sym_return s])
  end.

Definition ss_type (ss : SignatureStream) : BasicType := tok_type (ss_cur ss).
Definition ss_is_reference (ss : SignatureStream) : bool := is_reference_type (ss_type ss).
Definition ss_as_symbol (ss : SignatureStream) : string := tok_name (ss_cur ss).
Definition ss_at_return_type (ss : SignatureStream) : bool :=
  match ss_rest ss with [] => true | _ => false end.

(** ** The compilation environment, method types and the growable array *)

(** Modelled from the spec: ciEnv::get_klass_by_name_impl is declared
    outside this file; it resolves a class name on behalf of an accessing
    class and a constant pool to a class entity, which may be an unloaded
    placeholder. *)
Record ciEnv : Type := mkEnv {
  get_klass_by_name_impl : ciKlass -> nat -> string -> ciKlass
}.

(** Modelled from the spec: ciMethodType is declared outside this file; a
    structured descriptor gives each parameter type and the return type
    together with its never-null flag, and does its own slot accounting. *)
Record ciMethodType : Type := mkMethodType {
  mt_ptypes : list (ciType * bool);
  mt_rtype : ciType * bool
}.

(** Modelled from the spec: ciMethodType::ptype_count is declared outside
    this file; it is the number of parameter types. *)
Definition ptype_count (mt : ciMethodType) : Z :=
  Z.of_nat (length (mt_ptypes mt)).

(** Modelled from the spec: ciMethodType::ptype_slot_count is declared
    outside this file; it is the sum of the machine-word footprints of the
    parameter types. *)
Definition ptype_slot_count (mt : ciMethodType) : Z :=
  fold_right (fun p acc => type2size (ciType_basic_type (fst p)) + acc) 0 (mt_ptypes mt).

(** Modelled from the spec: ciMethodType::ptype_at is declared outside
    this file; it gives the type and the never-null flag of a parameter. *)
Definition ptype_at (mt : ciMethodType) (i : Z) : result (ciType * bool) :=
  vmassert ((0 <=? i) && (i <? ptype_count mt)) IllegalIndex ;;;
  match nth_error (mt_ptypes mt) (Z.to_nat i) with
  | Some p => Ok p
  | None => Fail IllegalIndex
  end.

(** Modelled from the spec: ciMethodType::rtype is declared outside this
    file; it gives the return type and its never-null flag. *)
Definition rtype (mt : ciMethodType) : ciType * bool := mt_rtype mt.

(** Modelled from the spec: GrowableArray is declared outside this file;
    reading outside [0, length) is a bounds violation that fails loudly. *)
Definition GrowableArray_at {A : Type} (a : list A) (i : Z) : result A :=
  vmassert ((0 <=? i) && (i <? Z.of_nat (length a))) IllegalIndex ;;;
  match nth_error a (Z.to_nat i) with
  | Some x => Ok x
  | None => Fail IllegalIndex
  end.

(** Modelled from the spec: GrowableArray::append is declared outside this
    file; it adds an element at the end. *)
Definition GrowableArray_append {A : Type} (a : list A) (x : A) : list A :=
  a ++ [x].

(** ** ciSignature *)

Record ciSignature : Type := mkSignature {
  _symbol : ciSymbol;
  _accessing_klass : option ciKlass;
  _types : list ciType;
  _size : Z;
  _count : Z
}.

(** The wrap rule shared by both constructors:
    [if (type->is_valuetype() && never_null) type = make_never_null_wrapper(type)]. *)
Definition wrap_if_never_null (type : ciType) (never_null : bool) : result ciType :=
  if ciType_is_valuetype type && never_null
  then make_never_null_wrapper type
  else Ok type.

(** One element of the descriptor (lines 58-67 of the source). *)
Definition process_element (env : ciEnv) (accessing_klass : ciKlass) (cpool : nat)
    (ss : SignatureStream) : result ciType :=
  let type :=
    if negb (ss_is_reference ss)
    then ciType_make (ss_type ss)
    else ciKlassType (get_klass_by_name_impl env accessing_klass cpool (ss_as_symbol ss)) in
  wrap_if_never_null type (BasicType_eqb (ss_type ss) T_VALUETYPE).

(** The loop [for (; ; ss.next())]: the stream is the token under the
    cursor and the tokens after it; the loop leaves at the return type. *)
Fixpoint process_stream (env : ciEnv) (accessing_klass : ciKlass) (cpool : nat)
    (cur : SigToken) (rest : list SigToken)
    (types : list ciType) (size count : Z) : result (list ciType * Z * Z) :=
  let ss := mkStream cur rest in
  type <- process_element env accessing_klass cpool ss ;;
  let types := GrowableArray_append types type in
  if ss_at_return_type ss then
    (* Done processing the return type; do not add it into the count. *)
    Ok (types, size, count)
  else
    match rest with
    | [] => Ok (types, size, count) (* not reached: the cursor is at the return type *)
    | next :: rest' => (* ss.next() *)
        process_stream env accessing_klass cpool next rest' types
          (size + ciType_size type) (count + 1)
    end.

(** The constructor of ciSignature from an accessing class, a constant
    pool and a descriptor symbol. *)
Definition ciSignature_of_symbol (env : ciEnv) (accessing_klass : option ciKlass)
    (cpool : nat) (symbol : ciSymbol) : result ciSignature :=
  match accessing_klass with
  | None => Fail NeedOriginOfAccess
  | Some klass =>
      let ss := SignatureStream_new symbol in
      r <- process_stream env klass cpool (ss_cur ss) (ss_rest ss) [] 0 0 ;;
      let '(types, size, count) := r in
      Ok (mkSignature symbol accessing_klass types size count)
  end.

(** The loop [for (int i = 0; i < _count; i++)] of the second constructor;
    [n] is the number of iterations left. *)
Fixpoint process_ptypes (mt : ciMethodType) (n : nat) (i : Z)
    (types : list ciType) : result (list ciType) :=
  match n with
  | O => Ok types
  | S n' =>
      p <- ptype_at mt i ;;
      type <- wrap_if_never_null (fst p) (snd p) ;;
      process_ptypes mt n' (i + 1) (GrowableArray_append types type)
  end.

(** The constructor of ciSignature from an accessing class, a symbol and
    a method type. *)
Definition ciSignature_of_method_type (accessing_klass : option ciKlass)
    (symbol : ciSymbol) (method_type : ciMethodType) : result ciSignature :=
  let size := ptype_slot_count method_type in
  let count := ptype_count method_type in
  types <- process_ptypes method_type (Z.to_nat count) 0 [] ;;
  type <- wrap_if_never_null (fst (rtype method_type)) (snd (rtype method_type)) ;;
  Ok (mkSignature symbol accessing_klass (GrowableArray_append types type) size count).

(** ciSignature::return_type *)
Definition return_type (s : ciSignature) : result ciType :=
  t <- GrowableArray_at (_types s) (_count s) ;;
  Ok (ciType_unwrap t).

(** ciSignature::type_at *)
Definition type_at (s : ciSignature) (index : Z) : result ciType :=
  vmassert (index <? _count s) OutOfBounds ;;;
  t <- GrowableArray_at (_types s) index ;;
  Ok (ciType_unwrap t).

(** ciSignature::returns_never_null *)
Definition returns_never_null (s : ciSignature) : result bool :=
  t <- GrowableArray_at (_types s) (_count s) ;;
  Ok (ciType_is_never_null t).

(** ciSignature::maybe_returns_never_null *)
Definition maybe_returns_never_null (s : ciSignature) : result bool :=
  ret_type <- GrowableArray_at (_types s) (_count s) ;;
  if ciType_is_never_null ret_type then Ok true
  else if ciType_is_instance_klass ret_type && negb (ciType_is_loaded ret_type) then
    if is_Q_method_signature (_symbol s) then Ok true else Ok false
  else Ok false.

(** ciSignature::is_never_null_at *)
Definition is_never_null_at (s : ciSignature) (index : Z) : result bool :=
  vmassert (index <? _count s) OutOfBounds ;;;
  t <- GrowableArray_at (_types s) index ;;
  Ok (ciType_is_never_null t).

(** The argument loop of [equals]: [Ok true] when every argument type
    matched, [Ok false] at the first mismatch. *)
Fixpoint equals_args (this that : ciSignature) (n : nat) (i : Z) : result bool :=
  match n with
  | O => Ok true
  | S n' =>
      a <- type_at this i ;;
      b <- type_at that i ;;
      if negb (ciType_eqb a b) then Ok false
      else equals_args this that n' (i + 1)
  end.

(** ciSignature::equals *)
Definition equals (this that : ciSignature) : result bool :=
  if negb (ciSymbol_equals (_symbol this) (_symbol that)) then Ok false
  else
    args <- equals_args this that (Z.to_nat (_count this)) 0 ;;
    if negb args then Ok false
    else
      a <- return_type this ;;
      b <- return_type that ;;
      if negb (ciType_eqb a b) then Ok false
      else Ok true.

(** ** Pure readings of the constructors, used to state their results *)

(** The type a token resolves to, before any wrapping. *)
Definition resolve_token (env : ciEnv) (accessing_klass : ciKlass) (cpool : nat)
    (tok : SigToken) : ciType :=
  if negb (is_reference_type (tok_type tok))
  then ciType_make (tok_type tok)
  else ciKlassType (get_klass_by_name_impl env accessing_klass cpool (tok_name tok)).

(** The stored element for a type and its never-null flag. *)
Definition wrapped (type : ciType) (never_null : bool) : ciType :=
  if ciType_is_valuetype type && never_null then ciWrapper type else type.

Definition is_Q_token (tok : SigToken) : bool :=
  BasicType_eqb (tok_type tok) T_VALUETYPE.

Definition element_of (env : ciEnv) (accessing_klass : ciKlass) (cpool : nat)
    (tok : SigToken) : ciType :=
  wrapped (resolve_token env accessing_klass cpool tok) (is_Q_token tok).

Definition sum_sizes (types : list ciType) : Z :=
  fold_right (fun t acc => ciType_size t + acc) 0 types.

(** The array holds the parameters and then the return type. *)
Definition well_sized (s : ciSignature) : Prop :=
  0 <= _count s /\ Z.of_nat (length (_types s)) = _count s + 1.

(** A method type hands out well-formed types. *)
Definition ciMethodType_well_formed (mt : ciMethodType) : Prop :=
  Forall (fun p => ciType_well_formed (fst p)) (mt_ptypes mt) /\
  ciType_well_formed (fst (mt_rtype mt)).

(** The signatures that exist: those produced by one of the constructors. *)
Inductive constructed : ciSignature -> Prop :=
| constructed_of_symbol env acc cp symbol s :
    ciSignature_of_symbol env acc cp symbol = Ok s -> constructed s
| constructed_of_method_type acc symbol mt s :
    ciMethodType_well_formed mt ->
    ciSignature_of_method_type acc symbol mt = Ok s -> constructed s.

(** When a structured descriptor and a textual one describe the same
    method shape: position by position the structured type is the type the
    token resolves to, and for a value type the never-null flag is the
    never-null marker of the token. *)
Definition position_matches (env : ciEnv) (k : ciKlass) (cp : nat)
    (tok : SigToken) (p : ciType * bool) : Prop :=
  fst p = resolve_token env k cp tok /\
  (ciType_is_valuetype (fst p) = true -> snd p = is_Q_token tok).

Definition equivalent_descriptors (env : ciEnv) (k : ciKlass) (cp : nat)
    (symbol : ciSymbol) (mt : ciMethodType) : Prop :=
  Forall2 (position_matches env k cp) (sym_params symbol) (mt_ptypes mt) /\
  position_matches env k cp (sym_return symbol) (mt_rtype mt).

Definition with_accessing_klass (k : option ciKlass) (s : ciSignature) : ciSignature :=
  mkSignature (_symbol s) k (_types s) (_size s) (_count s).

(** ** A small world for the examples: [Point] is a loaded value class,
    [java/lang/String] a loaded class, every other name is not loaded. *)

Definition Point : ciKlass := ciValueKlass 1.
Definition String_klass : ciKlass := ciInstanceKlass 2 true.
Definition Unloaded : ciKlass := ciInstanceKlass 0 false.
Definition klass_A : ciKlass := ciInstanceKlass 10 true.
Definition klass_B : ciKlass := ciInstanceKlass 11 true.

Definition example_env : ciEnv :=
  mkEnv (fun _ _ name =>
    if String.eqb name "Point" then Point
    else if String.eqb name "java/lang/String" then String_klass
    else Unloaded).

(** An environment in which [java/lang/String] resolves to another type
    entity. *)
Definition anomalous_env : ciEnv :=
  mkEnv (fun _ _ name =>
    if String.eqb name "java/lang/String" then ciInstanceKlass 3 true
    else Unloaded).

Definition prim (bt : BasicType) : SigToken := mkToken bt "".
Definition L (name : string) : SigToken := mkToken T_OBJECT name.
Definition Q (name : string) : SigToken := mkToken T_VALUETYPE name.

(** [(IDQPoint;)V] *)
Definition sym_IDQPoint_V : ciSymbol :=
  mkSymbol [prim T_INT; prim T_DOUBLE; Q "Point"] (prim T_VOID).

(** [(Ljava/lang/String;)I] *)
Definition sym_String_I : ciSymbol :=
  mkSymbol [L "java/lang/String"] (prim T_INT).

(** [(JQPoint;)QPoint;] and its structured counterpart. *)
Definition sym_JQPoint_QPoint : ciSymbol :=
  mkSymbol [prim T_LONG; Q "Point"] (Q "Point").

Definition mt_JQPoint_QPoint : ciMethodType :=
  mkMethodType [(ciPrimitive T_LONG, false); (ciKlassType Point, true)]
               (ciKlassType Point, true).

(** A method type with one parameter less. *)
Definition mt_J_QPoint : ciMethodType :=
  mkMethodType [(ciPrimitive T_LONG, false)] (ciKlassType Point, true).

(** A method type that flags a class that is not a value type. *)
Definition mt_String_never_null : ciMethodType :=
  mkMethodType [(ciKlassType String_klass, true)] (ciKlassType Point, true).

(** The shape of [mt_JQPoint_QPoint] with no never-null flag set. *)
Definition mt_JLPoint_LPoint : ciMethodType :=
  mkMethodType [(ciPrimitive T_LONG, false); (ciKlassType Point, false)]
               (ciKlassType Point, false).

(** [(QLazy;)QLazy;]: a value-type-shaped reference that is not loaded. *)
Definition sym_QLazy_QLazy : ciSymbol :=
  mkSymbol [Q "Lazy"] (Q "Lazy").

(** * Properties *)

(** ** The scenarios of the specification, by evaluation *)

Example scenario_IDQPoint_V :
  exists s, ciSignature_of_symbol example_env (Some klass_A) 0 sym_IDQPoint_V = Ok s
    /\ _count s = 3 /\ _size s = 4
    /\ is_never_null_at s 2 = Ok true
    /\ is_never_null_at s 0 = Ok false.
Proof. eexists. repeat split; reflexivity. Qed.

Example scenario_String_I :
  exists s1 s2,
    ciSignature_of_symbol example_env (Some klass_A) 0 sym_String_I = Ok s1
    /\ ciSignature_of_symbol example_env (Some klass_B) 1 sym_String_I = Ok s2
    /\ equals s1 s2 = Ok true.
Proof. do 2 eexists. repeat split; reflexivity. Qed.

Example scenario_String_I_anomaly :
  exists s1 s2,
    ciSignature_of_symbol example_env (Some klass_A) 0 sym_String_I = Ok s1
    /\ ciSignature_of_symbol anomalous_env (Some klass_A) 0 sym_String_I = Ok s2
    /\ equals s1 s2 = Ok false.
Proof. do 2 eexists. repeat split; reflexivity. Qed.

(** Handed the same symbol but method types of different arity, [equals]
    runs into the bounds assertion of [type_at] on the shorter one. *)
Example equals_asserts_on_a_shorter_argument :
  exists s1 s2,
    ciSignature_of_method_type (Some klass_A) sym_JQPoint_QPoint mt_JQPoint_QPoint = Ok s1
    /\ ciSignature_of_method_type (Some klass_A) sym_JQPoint_QPoint mt_J_QPoint = Ok s2
    /\ equals s1 s2 = Fail OutOfBounds.
Proof. do 2 eexists. repeat split; reflexivity. Qed.

Example scenario_structured :
  ciSignature_of_method_type (Some klass_A) sym_JQPoint_QPoint mt_JQPoint_QPoint
  = ciSignature_of_symbol example_env (Some klass_A) 0 sym_JQPoint_QPoint.
Proof. reflexivity. Qed.

(** ** Identity tests decide equality *)

Lemma BasicType_eqb_eq (a b : BasicType) : BasicType_eqb a b = true <-> a = b.
Proof. destruct a, b; simpl; split; intro H; (reflexivity || discriminate). Qed.

Lemma ciKlass_eqb_eq (a b : ciKlass) : ciKlass_eqb a b = true <-> a = b.
Proof.
  destruct a, b; simpl; split; intro H; try discriminate.
  - apply andb_true_iff in H as [Hi Hl].
    apply Nat.eqb_eq in Hi. apply Bool.eqb_prop in Hl. congruence.
  - injection H as -> ->. now rewrite Nat.eqb_refl, Bool.eqb_reflx.
  - apply Nat.eqb_eq in H. congruence.
  - injection H as ->. apply Nat.eqb_refl.
  - apply andb_true_iff in H as [Hi Hl].
    apply Nat.eqb_eq in Hi. apply Bool.eqb_prop in Hl. congruence.
  - injection H as -> ->. now rewrite Nat.eqb_refl, Bool.eqb_reflx.
Qed.

Lemma ciType_eqb_eq (a b : ciType) : ciType_eqb a b = true <-> a = b.
Proof.
  revert b. induction a as [x | x | x IH]; intros [y | y | y]; simpl;
    try (split; intro H; discriminate).
  - rewrite BasicType_eqb_eq. split; congruence.
  - rewrite ciKlass_eqb_eq. split; congruence.
  - rewrite IH. split; congruence.
Qed.

Lemma ciType_eqb_refl (a : ciType) : ciType_eqb a a = true.
Proof. now apply ciType_eqb_eq. Qed.

Lemma ciType_eqb_neq (a b : ciType) : a <> b -> ciType_eqb a b = false.
Proof.
  intro H. destruct (ciType_eqb a b) eqn:E; [|reflexivity].
  apply ciType_eqb_eq in E. contradiction.
Qed.

Lemma SigToken_eqb_eq (a b : SigToken) : SigToken_eqb a b = true <-> a = b.
Proof.
  destruct a as [ta na], b as [tb nb]. unfold SigToken_eqb. simpl.
  rewrite andb_true_iff, BasicType_eqb_eq, String.eqb_eq. split.
  - intros [-> ->]. reflexivity.
  - intro H. injection H as -> ->. split; reflexivity.
Qed.

Lemma tokens_eqb_eq (xs ys : list SigToken) : tokens_eqb xs ys = true <-> xs = ys.
Proof.
  revert ys. induction xs as [|x xs IH]; intros [|y ys]; simpl;
    try (split; intro H; (reflexivity || discriminate)).
  rewrite andb_true_iff, SigToken_eqb_eq, IH. split.
  - intros [-> ->]. reflexivity.
  - intro H. injection H as -> ->. split; reflexivity.
Qed.

Lemma ciSymbol_equals_eq (a b : ciSymbol) : ciSymbol_equals a b = true <-> a = b.
Proof.
  destruct a as [pa ra], b as [pb rb]. unfold ciSymbol_equals. simpl.
  rewrite andb_true_iff, tokens_eqb_eq, SigToken_eqb_eq. split.
  - intros [-> ->]. reflexivity.
  - intro H. injection H as -> ->. split; reflexivity.
Qed.

(** ** The error monad *)

Lemma bind_Ok {A B : Type} (r : result A) (k : A -> result B) (b : B) :
  bind r k = Ok b <-> exists a, r = Ok a /\ k a = Ok b.
Proof.
  destruct r as [a | f]; simpl; split.
  - intro H. now exists a.
  - intros [a' [Ha Hk]]. now injection Ha as ->.
  - discriminate.
  - intros [a' [Ha _]]. discriminate.
Qed.

Lemma vmassert_true (b : bool) (f : failure) : b = true -> vmassert b f = Ok tt.
Proof. now intros ->. Qed.

Lemma vmassert_false (b : bool) (f : failure) : b = false -> vmassert b f = Fail f.
Proof. now intros ->. Qed.

(** ** The growable array *)

Lemma GrowableArray_at_in_range {A : Type} (a : list A) (i : Z) :
  0 <= i < Z.of_nat (length a) ->
  exists x, GrowableArray_at a i = Ok x /\ nth_error a (Z.to_nat i) = Some x.
Proof.
  intros Hi. unfold GrowableArray_at.
  rewrite vmassert_true by (apply andb_true_iff; split; lia). simpl.
  destruct (nth_error a (Z.to_nat i)) as [x|] eqn:E.
  - now exists x.
  - apply nth_error_None in E. lia.
Qed.

Lemma GrowableArray_at_out_of_range {A : Type} (a : list A) (i : Z) :
  i < 0 \/ Z.of_nat (length a) <= i -> GrowableArray_at a i = Fail IllegalIndex.
Proof.
  intros Hi. unfold GrowableArray_at.
  rewrite vmassert_false; [reflexivity|].
  apply andb_false_iff. destruct Hi; [left | right]; lia.
Qed.

Lemma GrowableArray_at_Ok {A : Type} (a : list A) (i : Z) (x : A) :
  GrowableArray_at a i = Ok x <->
  0 <= i < Z.of_nat (length a) /\ nth_error a (Z.to_nat i) = Some x.
Proof.
  split.
  - intro H.
    destruct (Z_lt_dec i 0) as [Hn|Hn];
      [rewrite GrowableArray_at_out_of_range in H by lia; discriminate|].
    destruct (Z_le_dec (Z.of_nat (length a)) i) as [Hb|Hb];
      [rewrite GrowableArray_at_out_of_range in H by lia; discriminate|].
    destruct (GrowableArray_at_in_range a i) as [y [Hy Hn']]; [lia|].
    split; [lia|]. congruence.
  - intros [Hi Hn].
    destruct (GrowableArray_at_in_range a i Hi) as [y [Hy Hn']]. congruence.
Qed.

Lemma GrowableArray_at_nat {A : Type} (a : list A) (n : nat) (x : A) :
  nth_error a n = Some x -> GrowableArray_at a (Z.of_nat n) = Ok x.
Proof.
  intro H. apply GrowableArray_at_Ok. rewrite Nat2Z.id. split; [|assumption].
  assert (n < length a)%nat by (apply nth_error_Some; congruence). lia.
Qed.

Lemma GrowableArray_at_last {A : Type} (a : list A) (x : A) :
  GrowableArray_at (a ++ [x]) (Z.of_nat (length a)) = Ok x.
Proof.
  apply GrowableArray_at_nat.
  rewrite nth_error_app2 by lia. now rewrite Nat.sub_diag.
Qed.

Lemma GrowableArray_at_app1 {A : Type} (a b : list A) (n : nat) (x : A) :
  nth_error a n = Some x -> GrowableArray_at (a ++ b) (Z.of_nat n) = Ok x.
Proof.
  intro H. apply GrowableArray_at_nat.
  rewrite nth_error_app1; [assumption|]. apply nth_error_Some. congruence.
Qed.

(** ** The wrap rule *)

Lemma wrap_if_never_null_Ok (type : ciType) (never_null : bool) :
  wrap_if_never_null type never_null = Ok (wrapped type never_null).
Proof.
  unfold wrap_if_never_null, wrapped, make_never_null_wrapper.
  destruct (ciType_is_valuetype type) eqn:V; simpl; [|reflexivity].
  destruct never_null; reflexivity.
Qed.

Lemma size_wrapped (type : ciType) (never_null : bool) :
  ciType_size (wrapped type never_null) = ciType_size type.
Proof.
  unfold wrapped. now destruct (ciType_is_valuetype type && never_null).
Qed.

Lemma size_unwrap (t : ciType) : ciType_size (ciType_unwrap t) = ciType_size t.
Proof. now destruct t. Qed.

Lemma unwrap_wrapped (type : ciType) (never_null : bool) :
  ciType_unwrap (wrapped type never_null) = ciType_unwrap type \/
  ciType_unwrap (wrapped type never_null) = type.
Proof.
  unfold wrapped. destruct (ciType_is_valuetype type && never_null); auto.
Qed.

Lemma is_never_null_wrapped (type : ciType) (never_null : bool) :
  ciType_is_wrapper type = false ->
  ciType_is_never_null (wrapped type never_null)
  = ciType_is_valuetype type && never_null.
Proof.
  intro W. unfold wrapped.
  destruct (ciType_is_valuetype type && never_null); [reflexivity|].
  now destruct type.
Qed.

Lemma well_formed_wrapped (type : ciType) (never_null : bool) :
  ciType_well_formed type -> ciType_well_formed (wrapped type never_null).
Proof.
  intro W. unfold wrapped.
  destruct (ciType_is_valuetype type && never_null) eqn:E; [|assumption].
  simpl. now apply andb_true_iff in E.
Qed.

Lemma unwrap_well_formed (t : ciType) :
  ciType_well_formed t -> ciType_is_wrapper (ciType_unwrap t) = false.
Proof.
  destruct t as [bt | k | inner]; simpl; try reflexivity.
  destruct inner; simpl; (reflexivity || discriminate).
Qed.

Lemma resolve_token_not_wrapper env k cp (tok : SigToken) :
  ciType_is_wrapper (resolve_token env k cp tok) = false.
Proof. unfold resolve_token. now destruct (negb (is_reference_type (tok_type tok))). Qed.

Lemma element_of_well_formed env k cp (tok : SigToken) :
  ciType_well_formed (element_of env k cp tok).
Proof.
  apply well_formed_wrapped.
  pose proof (resolve_token_not_wrapper env k cp tok) as W.
  now destruct (resolve_token env k cp tok).
Qed.

(** ** The constructor from a descriptor symbol *)

Lemma process_element_Ok env k cp (cur : SigToken) (rest : list SigToken) :
  process_element env k cp (mkStream cur rest) = Ok (element_of env k cp cur).
Proof.
  unfold process_element, element_of, resolve_token, is_Q_token.
  unfold ss_is_reference, ss_type, ss_as_symbol. simpl.
  apply wrap_if_never_null_Ok.
Qed.

Lemma process_stream_Ok env k cp (rest : list SigToken) :
  forall (cur : SigToken) (types : list ciType) (size count : Z),
    process_stream env k cp cur rest types size count
    = Ok (types ++ map (element_of env k cp) (cur :: rest),
          size + sum_sizes (map (element_of env k cp) (removelast (cur :: rest))),
          count + Z.of_nat (length rest)).
Proof.
  induction rest as [|next rest IH]; intros cur types size count.
  - simpl. rewrite process_element_Ok. simpl.
    unfold GrowableArray_append. do 3 f_equal; lia.
  - cbn [process_stream]. rewrite process_element_Ok. cbn [bind].
    unfold ss_at_return_type. cbn [ss_rest].
    rewrite IH. unfold GrowableArray_append.
    rewrite <- app_assoc. cbn [app map].
    change (removelast (cur :: next :: rest)) with (cur :: removelast (next :: rest)).
    cbn [map length]. f_equal. f_equal; [f_equal|].
    all: unfold sum_sizes; cbn [fold_right]; lia.
Qed.

Lemma SignatureStream_new_tokens (s : ciSymbol) :
  ss_cur (SignatureStream_new s) :: ss_rest (SignatureStream_new s)
  = sym_params s ++ [sym_return s].
Proof. unfold SignatureStream_new. now destruct (sym_params s). Qed.

Lemma ciSignature_of_symbol_Ok env k cp (symbol : ciSymbol) :
  ciSignature_of_symbol env (Some k) cp symbol
  = Ok (mkSignature symbol (Some k)
          (map (element_of env k cp) (sym_params symbol)
             ++ [element_of env k cp (sym_return symbol)])
          (sum_sizes (map (element_of env k cp) (sym_params symbol)))
          (Z.of_nat (length (sym_params symbol)))).
Proof.
  unfold ciSignature_of_symbol. rewrite process_stream_Ok. cbn [bind].
  rewrite SignatureStream_new_tokens.
  rewrite removelast_last, map_app. cbn [map app].
  f_equal. f_equal.
  assert (length (ss_rest (SignatureStream_new symbol)) = length (sym_params symbol)) as ->.
  { pose proof (f_equal (@length _) (SignatureStream_new_tokens symbol)) as H.
    rewrite length_app in H. simpl in H. lia. }
  reflexivity.
Qed.

Lemma ciSignature_of_symbol_null env cp (symbol : ciSymbol) :
  ciSignature_of_symbol env None cp symbol = Fail NeedOriginOfAccess.
Proof. reflexivity. Qed.

(** ** The constructor from a method type *)

Lemma ptype_at_nat (mt : ciMethodType) (j : nat) (p : ciType * bool) :
  nth_error (mt_ptypes mt) j = Some p -> ptype_at mt (Z.of_nat j) = Ok p.
Proof.
  intro H. unfold ptype_at, ptype_count.
  assert (j < length (mt_ptypes mt))%nat by (apply nth_error_Some; congruence).
  rewrite vmassert_true by (apply andb_true_iff; split; lia).
  cbn [bind]. now rewrite Nat2Z.id, H.
Qed.

Lemma process_ptypes_Ok (mt : ciMethodType) (n : nat) :
  forall (j : nat) (types : list ciType),
    (j + n <= length (mt_ptypes mt))%nat ->
    process_ptypes mt n (Z.of_nat j) types
    = Ok (types ++ map (fun p => wrapped (fst p) (snd p))
                       (firstn n (skipn j (mt_ptypes mt)))).
Proof.
  induction n as [|n IH]; intros j types Hj.
  - simpl. now rewrite app_nil_r.
  - cbn [process_ptypes].
    destruct (nth_error (mt_ptypes mt) j) as [p|] eqn:E;
      [|apply nth_error_None in E; lia].
    rewrite (ptype_at_nat _ _ _ E). cbn [bind].
    rewrite wrap_if_never_null_Ok. cbn [bind].
    replace (Z.of_nat j + 1) with (Z.of_nat (S j)) by lia.
    rewrite IH by lia. unfold GrowableArray_append.
    rewrite <- app_assoc. do 2 f_equal.
    destruct (nth_error_split _ _ E) as [l1 [l2 [Hl Hlen]]].
    rewrite Hl.
    replace (skipn j (l1 ++ p :: l2)) with (p :: l2)
      by (subst j; now rewrite skipn_app, skipn_all, Nat.sub_diag).
    replace (skipn (S j) (l1 ++ p :: l2)) with l2.
    + reflexivity.
    + subst j. rewrite skipn_app, skipn_all2 by lia.
      replace (S (length l1) - length l1)%nat with 1%nat by lia. reflexivity.
Qed.

Lemma ciSignature_of_method_type_Ok acc (symbol : ciSymbol) (mt : ciMethodType) :
  ciSignature_of_method_type acc symbol mt
  = Ok (mkSignature symbol acc
          (map (fun p => wrapped (fst p) (snd p)) (mt_ptypes mt)
             ++ [wrapped (fst (mt_rtype mt)) (snd (mt_rtype mt))])
          (ptype_slot_count mt)
          (ptype_count mt)).
Proof.
  unfold ciSignature_of_method_type.
  unfold ptype_count at 1. rewrite Nat2Z.id.
  change 0 with (Z.of_nat 0).
  rewrite (process_ptypes_Ok mt (length (mt_ptypes mt)) 0 []) by lia.
  cbn [bind]. unfold rtype. rewrite wrap_if_never_null_Ok. cbn [bind].
  cbn [skipn app]. rewrite firstn_all. reflexivity.
Qed.

(** ** Reading a signature whose array is the parameters and then the
    return type *)

Section Shape.
Variable s : ciSignature.
Variable params : list ciType.
Variable ret : ciType.
Hypothesis Htypes : _types s = params ++ [ret].
Hypothesis Hcount : _count s = Z.of_nat (length params).

Lemma shape_well_sized : well_sized s.
Proof using Htypes Hcount.
  unfold well_sized. rewrite Htypes, Hcount, length_app. simpl. lia.
Qed.

Lemma shape_return_element : GrowableArray_at (_types s) (_count s) = Ok ret.
Proof using Htypes Hcount.
  rewrite Htypes, Hcount. apply GrowableArray_at_last.
Qed.

Lemma shape_param_element (i : nat) (t : ciType) :
  nth_error params i = Some t ->
  GrowableArray_at (_types s) (Z.of_nat i) = Ok t.
Proof using Htypes.
  intro H. rewrite Htypes. now apply GrowableArray_at_app1.
Qed.

Lemma shape_index_lt_count (i : nat) (t : ciType) :
  nth_error params i = Some t -> (Z.of_nat i <? _count s) = true.
Proof using Hcount.
  intro H. apply Z.ltb_lt. rewrite Hcount.
  assert (i < length params)%nat by (apply nth_error_Some; congruence). lia.
Qed.

Lemma shape_return_type : return_type s = Ok (ciType_unwrap ret).
Proof using Htypes Hcount.
  unfold return_type. now rewrite shape_return_element.
Qed.

Lemma shape_returns_never_null : returns_never_null s = Ok (ciType_is_never_null ret).
Proof using Htypes Hcount.
  unfold returns_never_null. now rewrite shape_return_element.
Qed.

Lemma shape_type_at (i : nat) (t : ciType) :
  nth_error params i = Some t -> type_at s (Z.of_nat i) = Ok (ciType_unwrap t).
Proof using Htypes Hcount.
  intro H. unfold type_at.
  rewrite (shape_index_lt_count _ _ H). cbn [vmassert bind].
  now rewrite (shape_param_element _ _ H).
Qed.

Lemma shape_is_never_null_at (i : nat) (t : ciType) :
  nth_error params i = Some t ->
  is_never_null_at s (Z.of_nat i) = Ok (ciType_is_never_null t).
Proof using Htypes Hcount.
  intro H. unfold is_never_null_at.
  rewrite (shape_index_lt_count _ _ H). cbn [vmassert bind].
  now rewrite (shape_param_element _ _ H).
Qed.

Lemma shape_firstn_count : firstn (Z.to_nat (_count s)) (_types s) = params.
Proof using Htypes Hcount.
  rewrite Htypes, Hcount, Nat2Z.id.
  rewrite firstn_app, firstn_all, Nat.sub_diag. simpl. apply app_nil_r.
Qed.
End Shape.

Lemma sum_sizes_unwrap (l : list ciType) :
  sum_sizes (map ciType_unwrap l) = sum_sizes l.
Proof.
  induction l as [|t l IH]; [reflexivity|].
  unfold sum_sizes in *. simpl. now rewrite size_unwrap, IH.
Qed.

Lemma ciSignature_of_symbol_inv env acc cp (symbol : ciSymbol) (s : ciSignature) :
  ciSignature_of_symbol env acc cp symbol = Ok s ->
  exists k, acc = Some k /\
    s = mkSignature symbol (Some k)
          (map (element_of env k cp) (sym_params symbol)
             ++ [element_of env k cp (sym_return symbol)])
          (sum_sizes (map (element_of env k cp) (sym_params symbol)))
          (Z.of_nat (length (sym_params symbol))).
Proof.
  destruct acc as [k|]; [|discriminate].
  rewrite ciSignature_of_symbol_Ok. intro H. exists k. split; congruence.
Qed.

(** ** Length of the element array *)

(** C3: a signature produced by either constructor holds exactly
    [_count + 1] elements: the parameters in declaration order and then
    the return type.  The constructor from a symbol succeeds for every
    accessing class, the one from a method type always. *)
Theorem elements_length_is_count_plus_one :
  (forall env acc cp symbol s,
      ciSignature_of_symbol env acc cp symbol = Ok s ->
      exists k, acc = Some k /\
        Z.of_nat (length (_types s)) = _count s + 1 /\
        _count s = Z.of_nat (length (sym_params symbol)) /\
        _types s = map (element_of env k cp) (sym_params symbol)
                     ++ [element_of env k cp (sym_return symbol)] /\
        GrowableArray_at (_types s) (_count s)
          = Ok (element_of env k cp (sym_return symbol))) /\
  (forall acc symbol mt s,
      ciSignature_of_method_type acc symbol mt = Ok s ->
      Z.of_nat (length (_types s)) = _count s + 1 /\
      _count s = Z.of_nat (length (mt_ptypes mt)) /\
      _types s = map (fun p => wrapped (fst p) (snd p)) (mt_ptypes mt)
                   ++ [wrapped (fst (mt_rtype mt)) (snd (mt_rtype mt))] /\
      GrowableArray_at (_types s) (_count s)
        = Ok (wrapped (fst (mt_rtype mt)) (snd (mt_rtype mt)))) /\
  (forall env k cp symbol, succeeds (ciSignature_of_symbol env (Some k) cp symbol) = true) /\
  (forall acc symbol mt, succeeds (ciSignature_of_method_type acc symbol mt) = true).
Proof.
  split; [|split; [|split]].
  - intros env acc cp symbol s H.
    destruct (ciSignature_of_symbol_inv _ _ _ _ _ H) as [k [-> ->]]. exists k.
    split; [reflexivity|]. cbn [_types _count].
    rewrite length_app, length_map. cbn [length].
    repeat split; try lia.
    rewrite <- (length_map (element_of env k cp)). apply GrowableArray_at_last.
  - intros acc symbol mt s H.
    rewrite ciSignature_of_method_type_Ok in H. injection H as <-.
    cbn [_types _count]. unfold ptype_count.
    rewrite length_app, length_map. cbn [length].
    repeat split; try lia.
    rewrite <- (length_map (fun p => wrapped (fst p) (snd p))).
    apply GrowableArray_at_last.
  - intros. now rewrite ciSignature_of_symbol_Ok.
  - intros. now rewrite ciSignature_of_method_type_Ok.
Qed.

Lemma elements_length_is_count_plus_one_witness :
  exists s1 s2,
    ciSignature_of_symbol example_env (Some klass_A) 0 sym_IDQPoint_V = Ok s1 /\
    ciSignature_of_method_type (Some klass_A) sym_JQPoint_QPoint mt_JQPoint_QPoint = Ok s2 /\
    Z.of_nat (length (_types s1)) = _count s1 + 1 /\
    Z.of_nat (length (_types s2)) = _count s2 + 1.
Proof.
  do 2 eexists.
  split; [reflexivity|]. split; [reflexivity|].
  split.
  - destruct (proj1 elements_length_is_count_plus_one
                example_env (Some klass_A) 0%nat sym_IDQPoint_V _ eq_refl)
      as [k [_ [H _]]].
    exact H.
  - exact (proj1 (proj1 (proj2 elements_length_is_count_plus_one)
                    (Some klass_A) sym_JQPoint_QPoint mt_JQPoint_QPoint _ eq_refl)).
Defined.

(** ** Slot size and parameter count *)

(** C4: for a signature built from a descriptor symbol, [_count] is the
    number of parameter tokens and [_size] is the sum of the word sizes of
    the elements at the parameter positions (equally, of the unwrapped
    types that [type_at] returns there); replacing the return token by any
    other leaves both unchanged. *)
Theorem slot_size_counts_parameters_only :
  forall env acc cp symbol s,
    ciSignature_of_symbol env acc cp symbol = Ok s ->
    _count s = Z.of_nat (length (sym_params symbol)) /\
    _size s = sum_sizes (firstn (Z.to_nat (_count s)) (_types s)) /\
    _size s = sum_sizes (map ciType_unwrap (firstn (Z.to_nat (_count s)) (_types s))) /\
    (forall ret', exists s',
        ciSignature_of_symbol env acc cp (mkSymbol (sym_params symbol) ret') = Ok s' /\
        _size s' = _size s /\ _count s' = _count s).
Proof.
  intros env acc cp symbol s H.
  destruct (ciSignature_of_symbol_inv _ _ _ _ _ H) as [k [-> Hs]].
  assert (Hfirst : firstn (Z.to_nat (_count s)) (_types s)
                   = map (element_of env k cp) (sym_params symbol)).
  { apply (shape_firstn_count s _ (element_of env k cp (sym_return symbol))).
    - now rewrite Hs.
    - rewrite Hs. cbn [_count]. now rewrite length_map. }
  rewrite sum_sizes_unwrap, Hfirst.
  split; [now rewrite Hs|]. split; [now rewrite Hs|]. split; [now rewrite Hs|].
  intro ret'. eexists. split; [apply ciSignature_of_symbol_Ok|].
  rewrite Hs. split; reflexivity.
Qed.

Lemma slot_size_counts_parameters_only_witness :
  exists s,
    ciSignature_of_symbol example_env (Some klass_A) 0 sym_IDQPoint_V = Ok s /\
    _count s = 3 /\ _size s = 4 /\
    _size s = sum_sizes (firstn (Z.to_nat (_count s)) (_types s)).
Proof.
  eexists. split; [reflexivity|].
  split; [reflexivity|]. split; [reflexivity|].
  exact (proj1 (proj2 (slot_size_counts_parameters_only
                         example_env (Some klass_A) 0%nat sym_IDQPoint_V _ eq_refl))).
Defined.

(** ** Never-null queries *)

(** C5: [returns_never_null] answers true exactly when the stored return
    element is a wrapper; after construction from a descriptor symbol that
    is exactly when the return token resolves to a (loaded) value type and
    carries the never-null marker, so an unloaded class or a type that is
    not a value type gives false. *)
Theorem returns_never_null_iff_wrapper :
  (forall s,
      returns_never_null s = Ok true <->
      exists inner, GrowableArray_at (_types s) (_count s) = Ok (ciWrapper inner)) /\
  (forall env acc cp symbol s,
      ciSignature_of_symbol env acc cp symbol = Ok s ->
      exists k, acc = Some k /\
        let r := resolve_token env k cp (sym_return symbol) in
        returns_never_null s
          = Ok (ciType_is_valuetype r && is_Q_token (sym_return symbol)) /\
        (returns_never_null s = Ok true <->
           ciType_is_valuetype r = true /\ ciType_is_loaded r = true /\
           tok_type (sym_return symbol) = T_VALUETYPE) /\
        (ciType_is_loaded r = false \/ ciType_is_valuetype r = false ->
           returns_never_null s = Ok false)).
Proof.
  split.
  - intro s. unfold returns_never_null. split.
    + intro H. apply bind_Ok in H as [t [Ht Hn]].
      destruct t as [bt | k | inner]; try discriminate. now exists inner.
    + intros [inner H]. now rewrite H.
  - intros env acc cp symbol s H.
    destruct (ciSignature_of_symbol_inv _ _ _ _ _ H) as [k [-> Hs]].
    exists k. split; [reflexivity|]. intro r.
    assert (Hr : returns_never_null s
                 = Ok (ciType_is_valuetype r && is_Q_token (sym_return symbol))).
    { rewrite (shape_returns_never_null s
                 (map (element_of env k cp) (sym_params symbol))
                 (element_of env k cp (sym_return symbol))).
      - unfold element_of. fold r.
        now rewrite is_never_null_wrapped by apply resolve_token_not_wrapper.
      - now rewrite Hs.
      - rewrite Hs. cbn [_count]. now rewrite length_map. }
    split; [exact Hr|]. rewrite Hr. unfold is_Q_token. split.
    + split.
      * intro E. injection E as E. apply andb_true_iff in E as [V Qm].
        apply BasicType_eqb_eq in Qm. repeat split; try assumption.
        destruct r as [bt | [id l | id | id l] | inner]; try discriminate. reflexivity.
      * intros [V [_ Qm]]. rewrite V, Qm. reflexivity.
    + intros [Hl | Hv].
      * destruct r as [bt | [id l | id | id l] | inner]; try reflexivity.
        discriminate.
      * now rewrite Hv.
Qed.

Lemma returns_never_null_iff_wrapper_witness :
  exists s,
    ciSignature_of_symbol example_env (Some klass_A) 0 sym_JQPoint_QPoint = Ok s /\
    returns_never_null s = Ok true.
Proof.
  eexists. split; [reflexivity|].
  destruct (proj2 returns_never_null_iff_wrapper
              example_env (Some klass_A) 0%nat sym_JQPoint_QPoint _ eq_refl)
    as [k [Hk [Hr _]]].
  injection Hk as <-. exact Hr.
Defined.

(** C2: whenever the return element can be read, both queries answer;
    [maybe_returns_never_null] is true when [returns_never_null] is, and
    otherwise it is true exactly when the return element is an instance
    class that is not loaded and the return token of the descriptor carries
    the never-null marker. *)
Theorem maybe_returns_never_null_cases :
  forall s ret,
    GrowableArray_at (_types s) (_count s) = Ok ret ->
    returns_never_null s = Ok (ciType_is_never_null ret) /\
    (returns_never_null s = Ok true -> maybe_returns_never_null s = Ok true) /\
    (returns_never_null s = Ok false ->
       maybe_returns_never_null s
       = Ok (ciType_is_instance_klass ret && negb (ciType_is_loaded ret)
             && is_Q_token (sym_return (_symbol s)))).
Proof.
  intros s ret H.
  unfold returns_never_null, maybe_returns_never_null. rewrite H. cbn [bind].
  split; [reflexivity|].
  split; intro E; injection E as E; rewrite E; [reflexivity|].
  unfold is_Q_method_signature, is_Q_token.
  destruct (ciType_is_instance_klass ret && negb (ciType_is_loaded ret));
    [|reflexivity].
  now destruct (BasicType_eqb (tok_type (sym_return (_symbol s))) T_VALUETYPE).
Qed.

Lemma maybe_returns_never_null_cases_witness :
  exists s,
    ciSignature_of_symbol example_env (Some klass_A) 0 sym_QLazy_QLazy = Ok s /\
    returns_never_null s = Ok false /\
    maybe_returns_never_null s = Ok true.
Proof.
  eexists. split; [vm_compute; reflexivity|].
  match goal with
  | |- returns_never_null ?s = _ /\ _ =>
      destruct (maybe_returns_never_null_cases s (ciKlassType Unloaded) eq_refl)
        as [Hr [_ Hm]]
  end.
  split; [exact Hr | exact (Hm Hr)].
Defined.

(** ** Bounds of the indexed queries *)

(** C7: outside [0, _count) both indexed queries fail with an assertion
    and return nothing.  At or above [_count] it is the query's own "out
    of bounds" assertion; below zero (and below [_count]) the query's
    assertion lets the index through and the array's index check fails.
    Inside the range of a well-sized signature both queries answer. *)
Theorem indexed_queries_fail_out_of_range :
  forall s i,
    (i < 0 \/ _count s <= i ->
       (exists f, type_at s i = Fail f) /\
       (exists f, is_never_null_at s i = Fail f)) /\
    (_count s <= i ->
       type_at s i = Fail OutOfBounds /\ is_never_null_at s i = Fail OutOfBounds) /\
    (i < 0 -> i < _count s ->
       type_at s i = Fail IllegalIndex /\ is_never_null_at s i = Fail IllegalIndex) /\
    (well_sized s -> 0 <= i < _count s ->
       succeeds (type_at s i) = true /\ succeeds (is_never_null_at s i) = true).
Proof.
  intros s i.
  assert (Hhigh : _count s <= i ->
            type_at s i = Fail OutOfBounds /\ is_never_null_at s i = Fail OutOfBounds).
  { intro Hi. unfold type_at, is_never_null_at.
    rewrite vmassert_false by (apply Z.ltb_ge; lia). split; reflexivity. }
  assert (Hlow : i < 0 -> i < _count s ->
            type_at s i = Fail IllegalIndex /\ is_never_null_at s i = Fail IllegalIndex).
  { intros Hn Hi. unfold type_at, is_never_null_at.
    rewrite vmassert_true by (apply Z.ltb_lt; lia). cbn [bind].
    rewrite GrowableArray_at_out_of_range by lia. split; reflexivity. }
  split; [|split; [exact Hhigh|split; [exact Hlow|]]].
  - intro Hout.
    destruct (Z_le_dec (_count s) i) as [Hc|Hc].
    + destruct (Hhigh Hc) as [-> ->]. split; eexists; reflexivity.
    + destruct Hlow as [-> ->]; try lia. split; eexists; reflexivity.
  - intros [_ Hs] Hi.
    destruct (GrowableArray_at_in_range (_types s) i) as [t [Ht _]]; [lia|].
    unfold type_at, is_never_null_at.
    rewrite vmassert_true by (apply Z.ltb_lt; lia). cbn [bind].
    rewrite Ht. split; reflexivity.
Qed.

Lemma indexed_queries_fail_out_of_range_witness :
  exists s,
    ciSignature_of_symbol example_env (Some klass_A) 0 sym_IDQPoint_V = Ok s /\
    type_at s 3 = Fail OutOfBounds /\
    type_at s (-1) = Fail IllegalIndex /\
    is_never_null_at s 3 = Fail OutOfBounds /\
    is_never_null_at s (-1) = Fail IllegalIndex /\
    succeeds (type_at s 2) = true.
Proof.
  eexists. split; [reflexivity|].
  match goal with
  | |- type_at ?s _ = _ /\ _ =>
      pose proof (indexed_queries_fail_out_of_range s 3) as [_ [H3 _]];
      pose proof (indexed_queries_fail_out_of_range s (-1)) as [_ [_ [Hm _]]];
      pose proof (indexed_queries_fail_out_of_range s 2) as [_ [_ [_ H2]]]
  end.
  destruct H3 as [H3a H3b]; [cbn; lia|].
  destruct Hm as [Hma Hmb]; [lia | cbn; lia|].
  destruct H2 as [H2a _]; [split; cbn; lia | cbn; lia|].
  repeat split; assumption.
Defined.

(** ** Unloaded parameter types *)

Lemma element_of_unloaded env k cp (tok : SigToken) :
  is_reference_type (tok_type tok) = true ->
  ciKlass_is_loaded (get_klass_by_name_impl env k cp (tok_name tok)) = false ->
  element_of env k cp tok
  = ciKlassType (get_klass_by_name_impl env k cp (tok_name tok)).
Proof.
  intros Hr Hl. unfold element_of, resolve_token, wrapped. rewrite Hr. cbn [negb].
  destruct (get_klass_by_name_impl env k cp (tok_name tok)); (reflexivity || discriminate).
Qed.

(** C9: a parameter whose token carries the never-null marker but whose
    class is not loaded is stored unwrapped, and [is_never_null_at] answers
    false for it; no look at the descriptor is made.  The same situation at
    the return position makes [maybe_returns_never_null] answer true while
    [returns_never_null] answers false. *)
Theorem is_never_null_at_has_no_fallback :
  forall env acc cp symbol s,
    ciSignature_of_symbol env acc cp symbol = Ok s ->
    exists k, acc = Some k /\
      (forall (i : nat) tok,
          nth_error (sym_params symbol) i = Some tok ->
          tok_type tok = T_VALUETYPE ->
          ciKlass_is_loaded (get_klass_by_name_impl env k cp (tok_name tok)) = false ->
          GrowableArray_at (_types s) (Z.of_nat i)
            = Ok (ciKlassType (get_klass_by_name_impl env k cp (tok_name tok))) /\
          is_never_null_at s (Z.of_nat i) = Ok false) /\
      (forall id,
          tok_type (sym_return symbol) = T_VALUETYPE ->
          get_klass_by_name_impl env k cp (tok_name (sym_return symbol))
            = ciInstanceKlass id false ->
          returns_never_null s = Ok false /\
          maybe_returns_never_null s = Ok true).
Proof.
  intros env acc cp symbol s H.
  destruct (ciSignature_of_symbol_inv _ _ _ _ _ H) as [k [-> Hs]].
  exists k. split; [reflexivity|].
  assert (Ht : _types s = map (element_of env k cp) (sym_params symbol)
                            ++ [element_of env k cp (sym_return symbol)])
    by now rewrite Hs.
  assert (Hc : _count s = Z.of_nat (length (map (element_of env k cp) (sym_params symbol))))
    by (rewrite Hs, length_map; reflexivity).
  split.
  - intros i tok Hi Hq Hl.
    assert (He : nth_error (map (element_of env k cp) (sym_params symbol)) i
                 = Some (ciKlassType (get_klass_by_name_impl env k cp (tok_name tok)))).
    { rewrite nth_error_map, Hi. cbn [option_map]. f_equal.
      apply element_of_unloaded; [now rewrite Hq | assumption]. }
    split.
    + exact (shape_param_element s _ _ Ht i _ He).
    + now rewrite (shape_is_never_null_at s _ _ Ht Hc i _ He).
  - intros id Hq Hr.
    assert (He : element_of env k cp (sym_return symbol)
                 = ciKlassType (ciInstanceKlass id false)).
    { rewrite element_of_unloaded; [now rewrite Hr | now rewrite Hq | now rewrite Hr]. }
    pose proof (shape_return_element s _ _ Ht Hc) as Hret. rewrite He in Hret.
    unfold returns_never_null, maybe_returns_never_null. rewrite Hret. cbn.
    assert (Hsym : _symbol s = symbol) by now rewrite Hs.
    unfold is_Q_method_signature. rewrite Hsym, Hq. cbn. split; reflexivity.
Qed.

Lemma is_never_null_at_has_no_fallback_witness :
  exists s,
    ciSignature_of_symbol example_env (Some klass_A) 0 sym_QLazy_QLazy = Ok s /\
    is_never_null_at s 0 = Ok false /\
    returns_never_null s = Ok false /\
    maybe_returns_never_null s = Ok true.
Proof.
  eexists. split; [vm_compute; reflexivity|].
  match goal with
  | |- is_never_null_at ?s _ = _ /\ _ =>
      destruct (is_never_null_at_has_no_fallback
                  example_env (Some klass_A) 0%nat sym_QLazy_QLazy s eq_refl)
        as [k [Hk [Hp Hr]]]
  end.
  injection Hk as <-.
  destruct (Hp 0%nat (Q "Lazy") eq_refl eq_refl eq_refl) as [_ Hn].
  destruct (Hr 0%nat eq_refl eq_refl) as [Hr1 Hr2].
  repeat split; assumption.
Defined.

(** ** Queries return unwrapped types *)

Lemma constructed_shape (s : ciSignature) :
  constructed s ->
  exists params ret,
    _types s = params ++ [ret] /\
    _count s = Z.of_nat (length params) /\
    Forall ciType_well_formed (params ++ [ret]).
Proof.
  intros [env acc cp symbol s' H | acc symbol mt s' [Hp Hr] H].
  - destruct (ciSignature_of_symbol_inv _ _ _ _ _ H) as [k [-> ->]].
    exists (map (element_of env k cp) (sym_params symbol)),
           (element_of env k cp (sym_return symbol)).
    cbn [_types _count]. rewrite length_map. repeat split.
    apply Forall_app. split.
    + apply Forall_map, Forall_forall. intros tok _. apply element_of_well_formed.
    + constructor; [apply element_of_well_formed | constructor].
  - rewrite ciSignature_of_method_type_Ok in H. injection H as <-.
    exists (map (fun p => wrapped (fst p) (snd p)) (mt_ptypes mt)),
           (wrapped (fst (mt_rtype mt)) (snd (mt_rtype mt))).
    cbn [_types _count]. rewrite length_map. repeat split.
    apply Forall_app. split.
    + apply Forall_map. eapply Forall_impl; [|exact Hp].
      intros p W. now apply well_formed_wrapped.
    + constructor; [now apply well_formed_wrapped | constructor].
Qed.

Lemma constructed_well_sized (s : ciSignature) : constructed s -> well_sized s.
Proof.
  intro C. destruct (constructed_shape s C) as [params [ret [Ht [Hc _]]]].
  exact (shape_well_sized s params ret Ht Hc).
Qed.

Lemma stored_element_cases (e : ciType) :
  e = ciType_unwrap e \/ e = ciWrapper (ciType_unwrap e).
Proof. destruct e; cbn; auto. Qed.

Lemma unwrap_wrapped_unwrap (type : ciType) (never_null : bool) :
  ciType_unwrap (wrapped type never_null) = ciType_unwrap type.
Proof.
  unfold wrapped. destruct (ciType_is_valuetype type && never_null) eqn:E;
    [|reflexivity].
  apply andb_true_iff in E as [V _]. now destruct type.
Qed.

(** C8: on a signature produced by a constructor, [return_type] and
    [type_at] at every valid index answer the stored element with its
    wrapper, if it has one, stripped: the stored element is either the
    answer itself or the wrapper around the answer, which of the two is
    what [returns_never_null] and [is_never_null_at] report, and the
    answer is never a wrapper and never reports never-null itself.  The
    answer is the type the constructor was handed for the position: the
    type the token resolved to after the descriptor constructor, the
    (unwrapped) type of the method type after the other, whatever the
    never-null marker or flag of the position. *)
Theorem queries_return_unwrapped_types :
  forall s,
    constructed s ->
    (exists e,
        GrowableArray_at (_types s) (_count s) = Ok e /\
        return_type s = Ok (ciType_unwrap e) /\
        returns_never_null s = Ok (ciType_is_wrapper e) /\
        (e = ciType_unwrap e \/ e = ciWrapper (ciType_unwrap e)) /\
        ciType_is_wrapper (ciType_unwrap e) = false /\
        ciType_is_never_null (ciType_unwrap e) = false) /\
    (forall i, 0 <= i < _count s ->
       exists e,
         GrowableArray_at (_types s) i = Ok e /\
         type_at s i = Ok (ciType_unwrap e) /\
         is_never_null_at s i = Ok (ciType_is_wrapper e) /\
         (e = ciType_unwrap e \/ e = ciWrapper (ciType_unwrap e)) /\
         ciType_is_wrapper (ciType_unwrap e) = false /\
         ciType_is_never_null (ciType_unwrap e) = false) /\
    (forall env k cp symbol,
        ciSignature_of_symbol env (Some k) cp symbol = Ok s ->
        return_type s = Ok (resolve_token env k cp (sym_return symbol)) /\
        (forall (i : nat) tok,
            nth_error (sym_params symbol) i = Some tok ->
            type_at s (Z.of_nat i) = Ok (resolve_token env k cp tok))) /\
    (forall acc symbol mt,
        ciSignature_of_method_type acc symbol mt = Ok s ->
        return_type s = Ok (ciType_unwrap (fst (rtype mt))) /\
        (forall (i : nat) p,
            nth_error (mt_ptypes mt) i = Some p ->
            type_at s (Z.of_nat i) = Ok (ciType_unwrap (fst p)))).
Proof.
  intros s C.
  destruct (constructed_shape s C) as [params [ret [Ht [Hc Hwf]]]].
  apply Forall_app in Hwf as [Hparams Hret].
  split; [|split; [|split]].
  - exists ret. inversion Hret; subst.
    split; [exact (shape_return_element s params ret Ht Hc)|].
    split; [exact (shape_return_type s params ret Ht Hc)|].
    split; [exact (shape_returns_never_null s params ret Ht Hc)|].
    split; [apply stored_element_cases|].
    split; now apply unwrap_well_formed.
  - intros i Hi.
    destruct (nth_error params (Z.to_nat i)) as [t|] eqn:E;
      [|apply nth_error_None in E; lia].
    exists t.
    pose proof (shape_param_element s params ret Ht _ _ E) as Hel.
    pose proof (shape_type_at s params ret Ht Hc _ _ E) as Hty.
    pose proof (shape_is_never_null_at s params ret Ht Hc _ _ E) as Hnn.
    rewrite Z2Nat.id in Hel, Hty, Hnn by lia.
    assert (ciType_well_formed t)
      by (rewrite Forall_forall in Hparams; eapply Hparams, nth_error_In, E).
    split; [exact Hel|]. split; [exact Hty|]. split; [exact Hnn|].
    split; [apply stored_element_cases|].
    split; now apply unwrap_well_formed.
  - intros env k cp symbol H. rewrite ciSignature_of_symbol_Ok in H.
    assert (Hu : forall tok, ciType_unwrap (element_of env k cp tok)
                             = resolve_token env k cp tok).
    { intro tok. unfold element_of. rewrite unwrap_wrapped_unwrap.
      pose proof (resolve_token_not_wrapper env k cp tok) as W.
      now destruct (resolve_token env k cp tok). }
    assert (Ht' : _types s = map (element_of env k cp) (sym_params symbol)
                               ++ [element_of env k cp (sym_return symbol)])
      by now injection H as <-.
    assert (Hc' : _count s
                  = Z.of_nat (length (map (element_of env k cp) (sym_params symbol))))
      by (injection H as <-; cbn [_count]; now rewrite length_map).
    split.
    + rewrite <- Hu. exact (shape_return_type s _ _ Ht' Hc').
    + intros i tok Hi. rewrite <- Hu.
      apply (shape_type_at s _ _ Ht' Hc'). now rewrite nth_error_map, Hi.
  - intros acc symbol mt H. rewrite ciSignature_of_method_type_Ok in H.
    assert (Ht' : _types s = map (fun p => wrapped (fst p) (snd p)) (mt_ptypes mt)
                               ++ [wrapped (fst (mt_rtype mt)) (snd (mt_rtype mt))])
      by now injection H as <-.
    assert (Hc' : _count s
                  = Z.of_nat (length (map (fun p => wrapped (fst p) (snd p))
                                          (mt_ptypes mt))))
      by (injection H as <-; cbn [_count]; unfold ptype_count; now rewrite length_map).
    unfold rtype. split.
    + rewrite <- (unwrap_wrapped_unwrap (fst (mt_rtype mt)) (snd (mt_rtype mt))).
      exact (shape_return_type s _ _ Ht' Hc').
    + intros i p Hi. rewrite <- (unwrap_wrapped_unwrap (fst p) (snd p)).
      apply (shape_type_at s _ _ Ht' Hc'). now rewrite nth_error_map, Hi.
Qed.

Lemma queries_return_unwrapped_types_witness :
  exists s,
    ciSignature_of_method_type (Some klass_A) sym_JQPoint_QPoint mt_JQPoint_QPoint = Ok s /\
    GrowableArray_at (_types s) 1 = Ok (ciWrapper (ciKlassType Point)) /\
    type_at s 1 = Ok (ciKlassType Point) /\
    type_at s 0 = Ok (ciPrimitive T_LONG) /\
    return_type s = Ok (ciKlassType Point) /\
    (exists e,
        GrowableArray_at (_types s) 1 = Ok e /\
        type_at s 1 = Ok (ciType_unwrap e) /\
        is_never_null_at s 1 = Ok (ciType_is_wrapper e) /\
        (e = ciType_unwrap e \/ e = ciWrapper (ciType_unwrap e)) /\
        ciType_is_wrapper (ciType_unwrap e) = false /\
        ciType_is_never_null (ciType_unwrap e) = false).
Proof.
  eexists. split; [vm_compute; reflexivity|].
  match goal with
  | |- GrowableArray_at (_types ?s) _ = _ /\ _ =>
      assert (C : constructed s)
  end.
  { apply (constructed_of_method_type (Some klass_A) sym_JQPoint_QPoint mt_JQPoint_QPoint).
    - split; [repeat constructor | exact I].
    - vm_compute; reflexivity. }
  destruct (queries_return_unwrapped_types _ C) as [_ [Hp [_ Hm]]].
  destruct (Hm (Some klass_A) sym_JQPoint_QPoint mt_JQPoint_QPoint eq_refl)
    as [Hr Ht].
  split; [reflexivity|].
  split; [exact (Ht 1%nat (ciKlassType Point, true) eq_refl)|].
  split; [exact (Ht 0%nat (ciPrimitive T_LONG, false) eq_refl)|].
  split; [exact Hr|].
  apply Hp. cbn. lia.
Defined.

(** ** Equality of signatures *)

Lemma type_at_Ok (s : ciSignature) (i : Z) (t : ciType) :
  type_at s i = Ok t <->
  i < _count s /\ exists e, GrowableArray_at (_types s) i = Ok e /\ t = ciType_unwrap e.
Proof.
  unfold type_at. split.
  - intro H. apply bind_Ok in H as [[] [Ha H]].
    apply bind_Ok in H as [e [He H]]. injection H as <-.
    split; [|now exists e].
    unfold vmassert in Ha. destruct (i <? _count s) eqn:E; [|discriminate].
    now apply Z.ltb_lt.
  - intros [Hi [e [He ->]]].
    rewrite vmassert_true by now apply Z.ltb_lt. cbn [bind]. now rewrite He.
Qed.

Lemma type_at_below (s : ciSignature) (j k : Z) (a : ciType) :
  type_at s j = Ok a -> 0 <= k <= j -> succeeds (type_at s k) = true.
Proof.
  intros H Hk. apply type_at_Ok in H as [Hj [e [He _]]].
  apply GrowableArray_at_Ok in He as [Hr _].
  destruct (GrowableArray_at_in_range (_types s) k) as [x [Hx _]]; [lia|].
  unfold type_at. rewrite vmassert_true by (apply Z.ltb_lt; lia).
  cbn [bind]. now rewrite Hx.
Qed.

Lemma return_type_Ok (s : ciSignature) (t : ciType) :
  return_type s = Ok t ->
  0 <= _count s < Z.of_nat (length (_types s)).
Proof.
  unfold return_type. intro H. apply bind_Ok in H as [e [He _]].
  now apply GrowableArray_at_Ok in He as [Hr _].
Qed.

Lemma type_at_in_range (s : ciSignature) (k : Z) :
  0 <= k < _count s -> _count s < Z.of_nat (length (_types s)) ->
  succeeds (type_at s k) = true.
Proof.
  intros Hk Hc.
  destruct (GrowableArray_at_in_range (_types s) k) as [x [Hx _]]; [lia|].
  unfold type_at. rewrite vmassert_true by (apply Z.ltb_lt; lia).
  cbn [bind]. now rewrite Hx.
Qed.

Section EqualsArgs.
Variables this that : ciSignature.

Lemma equals_args_true (n : nat) :
  forall i,
    equals_args this that n i = Ok true <->
    (forall k, i <= k < i + Z.of_nat n ->
       exists t, type_at this k = Ok t /\ type_at that k = Ok t).
Proof.
  induction n as [|n IH]; intro i.
  - simpl. split; [intros _ k Hk; lia | reflexivity].
  - cbn [equals_args]. split.
    + intro H. apply bind_Ok in H as [a [Ha H]]. apply bind_Ok in H as [b [Hb H]].
      destruct (ciType_eqb a b) eqn:E; cbn [negb] in H; [|discriminate].
      apply ciType_eqb_eq in E. subst b.
      intros k Hk. destruct (Z.eq_dec k i) as [->|Hne].
      * now exists a.
      * apply (proj1 (IH (i + 1)) H). lia.
    + intro H. destruct (H i) as [t [Ha Hb]]; [lia|].
      rewrite Ha, Hb. cbn [bind]. rewrite ciType_eqb_refl. cbn [negb].
      apply IH. intros k Hk. apply H. lia.
Qed.

Lemma equals_args_defined (n : nat) :
  forall i,
    (forall k, i <= k < i + Z.of_nat n ->
       succeeds (type_at this k) = true /\ succeeds (type_at that k) = true) ->
    exists b, equals_args this that n i = Ok b.
Proof.
  induction n as [|n IH]; intros i H.
  - now exists true.
  - cbn [equals_args]. destruct (H i) as [Ha Hb]; [lia|].
    destruct (type_at this i) as [a|]; [|discriminate].
    destruct (type_at that i) as [b|]; [|discriminate].
    cbn [bind]. destruct (ciType_eqb a b); cbn [negb].
    + apply IH. intros k Hk. apply H. lia.
    + now exists false.
Qed.

Lemma equals_args_mismatch (n : nat) :
  forall i j a b,
    i <= j < i + Z.of_nat n ->
    type_at this j = Ok a -> type_at that j = Ok b -> a <> b ->
    (forall k, i <= k < j ->
       succeeds (type_at this k) = true /\ succeeds (type_at that k) = true) ->
    equals_args this that n i = Ok false.
Proof.
  induction n as [|n IH]; intros i j a b Hj Ha Hb Hab Hbelow; [lia|].
  cbn [equals_args]. destruct (Z.eq_dec j i) as [->|Hne].
  - rewrite Ha, Hb. cbn [bind]. now rewrite ciType_eqb_neq.
  - destruct (Hbelow i) as [Hi1 Hi2]; [lia|].
    destruct (type_at this i) as [x|]; [|discriminate].
    destruct (type_at that i) as [y|]; [|discriminate].
    cbn [bind]. destruct (ciType_eqb x y); cbn [negb]; [|reflexivity].
    apply (IH (i + 1) j a b); try assumption; try lia.
    intros k Hk. apply Hbelow. lia.
Qed.

Lemma equals_true_iff :
  equals this that = Ok true <->
  _symbol this = _symbol that /\
  (forall i, 0 <= i < _count this ->
     exists t, type_at this i = Ok t /\ type_at that i = Ok t) /\
  (exists t, return_type this = Ok t /\ return_type that = Ok t).
Proof.
  unfold equals. split.
  - intro H.
    destruct (ciSymbol_equals (_symbol this) (_symbol that)) eqn:S;
      cbn [negb] in H; [|discriminate].
    apply ciSymbol_equals_eq in S.
    apply bind_Ok in H as [args [Hargs H]].
    destruct args; cbn [negb] in H; [|discriminate].
    apply bind_Ok in H as [a [Ha H]]. apply bind_Ok in H as [b [Hb H]].
    destruct (ciType_eqb a b) eqn:E; cbn [negb] in H; [|discriminate].
    apply ciType_eqb_eq in E. subst b.
    split; [assumption|]. split; [|now exists a].
    intros i Hi. apply (proj1 (equals_args_true _ 0) Hargs). lia.
  - intros [S [Hargs [t [Ha Hb]]]].
    apply ciSymbol_equals_eq in S. rewrite S. cbn [negb].
    rewrite (proj2 (equals_args_true (Z.to_nat (_count this)) 0)).
    + cbn [bind negb]. rewrite Ha, Hb. cbn [bind].
      now rewrite ciType_eqb_refl.
    + intros k Hk. apply Hargs. lia.
Qed.

Lemma equals_symbol_mismatch :
  _symbol this <> _symbol that -> equals this that = Ok false.
Proof.
  intro H. unfold equals.
  destruct (ciSymbol_equals (_symbol this) (_symbol that)) eqn:S; [|reflexivity].
  apply ciSymbol_equals_eq in S. contradiction.
Qed.

Lemma equals_argument_mismatch (i : Z) (a b : ciType) :
  0 <= i < _count this ->
  type_at this i = Ok a -> type_at that i = Ok b -> a <> b ->
  equals this that = Ok false.
Proof.
  intros Hi Ha Hb Hab. unfold equals.
  destruct (ciSymbol_equals (_symbol this) (_symbol that)); [|reflexivity].
  cbn [negb].
  rewrite (equals_args_mismatch (Z.to_nat (_count this)) 0 i a b);
    try assumption; try lia; [reflexivity|].
  intros k Hk. split; [apply (type_at_below this i k a) | apply (type_at_below that i k b)];
    (assumption || lia).
Qed.

Lemma equals_return_mismatch (a b : ciType) :
  _count this <= _count that ->
  return_type this = Ok a -> return_type that = Ok b -> a <> b ->
  equals this that = Ok false.
Proof.
  intros Hc Ha Hb Hab. unfold equals.
  destruct (ciSymbol_equals (_symbol this) (_symbol that)); [|reflexivity].
  cbn [negb].
  pose proof (return_type_Ok _ _ Ha) as Ra. pose proof (return_type_Ok _ _ Hb) as Rb.
  destruct (equals_args_defined (Z.to_nat (_count this)) 0) as [args Hargs].
  { intros k Hk. split; apply type_at_in_range; lia. }
  rewrite Hargs. cbn [bind]. destruct args; cbn [negb]; [|reflexivity].
  rewrite Ha, Hb. cbn [bind]. now rewrite ciType_eqb_neq.
Qed.
End EqualsArgs.

Lemma equals_args_accessing_klass (k1 k2 : option ciKlass) (this that : ciSignature) (n : nat) :
  forall i,
    equals_args (with_accessing_klass k1 this) (with_accessing_klass k2 that) n i
    = equals_args this that n i.
Proof.
  induction n as [|n IH]; intro i; [reflexivity|].
  cbn [equals_args]. rewrite <- IH. reflexivity.
Qed.

Lemma equals_accessing_klass (k1 k2 : option ciKlass) (this that : ciSignature) :
  equals (with_accessing_klass k1 this) (with_accessing_klass k2 that)
  = equals this that.
Proof.
  unfold equals. cbn [with_accessing_klass _symbol _count].
  now rewrite equals_args_accessing_klass.
Qed.

Lemma unwrap_wrapped_plain (type : ciType) (never_null : bool) :
  ciType_is_wrapper type = false ->
  ciType_unwrap (wrapped type never_null) = type.
Proof.
  intro W. unfold wrapped.
  destruct (ciType_is_valuetype type && never_null); [reflexivity|].
  now destruct type.
Qed.

Lemma unwrap_element_of env k cp (tok : SigToken) :
  ciType_unwrap (element_of env k cp tok) = resolve_token env k cp tok.
Proof. apply unwrap_wrapped_plain, resolve_token_not_wrapper. Qed.

Lemma type_at_of_symbol env k cp (symbol : ciSymbol) (s : ciSignature) (i : nat) tok :
  ciSignature_of_symbol env (Some k) cp symbol = Ok s ->
  nth_error (sym_params symbol) i = Some tok ->
  type_at s (Z.of_nat i) = Ok (resolve_token env k cp tok).
Proof.
  intros H Hi. rewrite ciSignature_of_symbol_Ok in H. injection H as <-.
  rewrite <- unwrap_element_of.
  apply (shape_type_at _ (map (element_of env k cp) (sym_params symbol))
           (element_of env k cp (sym_return symbol))).
  - reflexivity.
  - cbn [_count]. now rewrite length_map.
  - now rewrite nth_error_map, Hi.
Qed.

Lemma return_type_of_symbol env k cp (symbol : ciSymbol) (s : ciSignature) :
  ciSignature_of_symbol env (Some k) cp symbol = Ok s ->
  return_type s = Ok (resolve_token env k cp (sym_return symbol)).
Proof.
  intros H. rewrite ciSignature_of_symbol_Ok in H. injection H as <-.
  rewrite <- unwrap_element_of.
  apply (shape_return_type _ (map (element_of env k cp) (sym_params symbol))).
  - reflexivity.
  - cbn [_count]. now rewrite length_map.
Qed.

(** C1: [equals] compares what the signatures resolved to, not which
    objects they are.  It answers true exactly when the symbols are the
    same, [type_at] gives the same type on both sides at every index below
    the receiver's [_count], and [return_type] gives the same type on both
    sides.  A different symbol gives false; so does a differing argument
    type, and a differing return type between signatures the comparison can
    walk (the argument's count is not smaller).  The accessing classes are
    never consulted: replacing them changes nothing, and two signatures
    built for one symbol from different accessing classes, constant pools
    and environments are equal when every token resolves to the same type
    in both, and unequal when some token does not. *)
Theorem equals_compares_symbols_and_types :
  (forall this that,
      equals this that = Ok true <->
      _symbol this = _symbol that /\
      (forall i, 0 <= i < _count this ->
         exists t, type_at this i = Ok t /\ type_at that i = Ok t) /\
      (exists t, return_type this = Ok t /\ return_type that = Ok t)) /\
  (forall this that,
      _symbol this <> _symbol that -> equals this that = Ok false) /\
  (forall this that i a b,
      0 <= i < _count this ->
      type_at this i = Ok a -> type_at that i = Ok b -> a <> b ->
      equals this that = Ok false) /\
  (forall this that a b,
      _count this <= _count that ->
      return_type this = Ok a -> return_type that = Ok b -> a <> b ->
      equals this that = Ok false) /\
  (forall k1 k2 this that,
      equals (with_accessing_klass k1 this) (with_accessing_klass k2 that)
      = equals this that) /\
  (forall env1 env2 k1 k2 cp1 cp2 symbol s1 s2,
      ciSignature_of_symbol env1 (Some k1) cp1 symbol = Ok s1 ->
      ciSignature_of_symbol env2 (Some k2) cp2 symbol = Ok s2 ->
      ((forall tok, In tok (sym_params symbol ++ [sym_return symbol]) ->
          resolve_token env1 k1 cp1 tok = resolve_token env2 k2 cp2 tok) ->
       equals s1 s2 = Ok true) /\
      ((exists tok, In tok (sym_params symbol ++ [sym_return symbol]) /\
          resolve_token env1 k1 cp1 tok <> resolve_token env2 k2 cp2 tok) ->
       equals s1 s2 = Ok false)).
Proof.
  split; [exact equals_true_iff|].
  split; [exact equals_symbol_mismatch|].
  split; [exact equals_argument_mismatch|].
  split; [exact equals_return_mismatch|].
  split; [exact equals_accessing_klass|].
  intros env1 env2 k1 k2 cp1 cp2 symbol s1 s2 H1 H2.
  assert (C1 : _count s1 = Z.of_nat (length (sym_params symbol)))
    by (rewrite ciSignature_of_symbol_Ok in H1; now injection H1 as <-).
  assert (C2 : _count s2 = Z.of_nat (length (sym_params symbol)))
    by (rewrite ciSignature_of_symbol_Ok in H2; now injection H2 as <-).
  split.
  - intro Hsame. apply equals_true_iff. split; [|split].
    + rewrite ciSignature_of_symbol_Ok in H1, H2.
      injection H1 as <-. now injection H2 as <-.
    + intros i Hi.
      destruct (nth_error (sym_params symbol) (Z.to_nat i)) as [tok|] eqn:E;
        [|apply nth_error_None in E; lia].
      exists (resolve_token env1 k1 cp1 tok).
      pose proof (type_at_of_symbol _ _ _ _ _ _ _ H1 E) as T1.
      pose proof (type_at_of_symbol _ _ _ _ _ _ _ H2 E) as T2.
      rewrite Z2Nat.id in T1, T2 by lia.
      split; [assumption|]. rewrite T2. f_equal. symmetry.
      apply Hsame, in_or_app. left. eapply nth_error_In, E.
    + exists (resolve_token env1 k1 cp1 (sym_return symbol)).
      split; [now apply return_type_of_symbol|].
      rewrite (return_type_of_symbol _ _ _ _ _ H2). f_equal. symmetry.
      apply Hsame, in_or_app. right. now left.
  - intros [tok [Hin Hdiff]]. apply in_app_or in Hin as [Hin | [<- | []]].
    + apply In_nth_error in Hin as [i E].
      assert (i < length (sym_params symbol))%nat
        by (apply nth_error_Some; congruence).
      apply (equals_argument_mismatch s1 s2 (Z.of_nat i)
               (resolve_token env1 k1 cp1 tok) (resolve_token env2 k2 cp2 tok));
        try assumption; try lia.
      * now apply (type_at_of_symbol _ _ _ symbol).
      * now apply (type_at_of_symbol _ _ _ symbol).
    + apply (equals_return_mismatch s1 s2
               (resolve_token env1 k1 cp1 (sym_return symbol))
               (resolve_token env2 k2 cp2 (sym_return symbol)));
        try assumption; try lia.
      * now apply return_type_of_symbol.
      * now apply return_type_of_symbol.
Qed.

Lemma equals_compares_symbols_and_types_witness :
  exists s1 s2 s3 s4,
    ciSignature_of_symbol example_env (Some klass_A) 0 sym_String_I = Ok s1 /\
    ciSignature_of_symbol example_env (Some klass_B) 1 sym_String_I = Ok s2 /\
    ciSignature_of_symbol example_env (Some klass_A) 0 sym_IDQPoint_V = Ok s3 /\
    ciSignature_of_symbol anomalous_env (Some klass_A) 0 sym_String_I = Ok s4 /\
    equals s1 s2 = Ok true /\
    equals s1 s3 = Ok false /\
    equals s1 s4 = Ok false.
Proof.
  do 4 eexists.
  do 4 (split; [vm_compute; reflexivity|]).
  split; [|split].
  - apply (proj1 (proj2 (proj2 (proj2 (proj2 (proj2 equals_compares_symbols_and_types))))
                   example_env example_env klass_A klass_B 0%nat 1%nat sym_String_I
                   _ _ eq_refl eq_refl)).
    intros tok Hin. reflexivity.
  - apply (proj1 (proj2 equals_compares_symbols_and_types)).
    cbn. discriminate.
  - apply (proj2 (proj2 (proj2 (proj2 (proj2 (proj2 equals_compares_symbols_and_types))))
                   example_env anomalous_env klass_A klass_A 0%nat 0%nat sym_String_I
                   _ _ eq_refl eq_refl)).
    exists (L "java/lang/String"). split; [now left | discriminate].
Defined.

(** C10: [equals] does not see the wrapping.  Two well-sized signatures
    with the same symbol whose stored elements agree once unwrapped are
    equal, whichever of them stored a wrapper at whichever position. *)
Theorem equals_ignores_never_null_wrapping :
  forall s1 s2,
    well_sized s1 -> well_sized s2 ->
    _symbol s1 = _symbol s2 ->
    map ciType_unwrap (_types s1) = map ciType_unwrap (_types s2) ->
    equals s1 s2 = Ok true.
Proof.
  intros s1 s2 [P1 W1] [P2 W2] Hsym Hu.
  assert (Hlen : length (_types s1) = length (_types s2))
    by (rewrite <- (length_map ciType_unwrap (_types s1)), Hu; apply length_map).
  assert (Hc : _count s1 = _count s2) by lia.
  assert (Hat : forall i, 0 <= i <= _count s1 ->
            exists e1 e2, GrowableArray_at (_types s1) i = Ok e1 /\
                          GrowableArray_at (_types s2) i = Ok e2 /\
                          ciType_unwrap e1 = ciType_unwrap e2).
  { intros i Hi.
    destruct (GrowableArray_at_in_range (_types s1) i) as [e1 [A1 N1]]; [lia|].
    destruct (GrowableArray_at_in_range (_types s2) i) as [e2 [A2 N2]]; [lia|].
    exists e1, e2. repeat split; try assumption.
    pose proof (map_nth_error ciType_unwrap _ _ N1) as M1.
    pose proof (map_nth_error ciType_unwrap _ _ N2) as M2.
    rewrite Hu in M1. congruence. }
  apply equals_true_iff. split; [assumption|]. split.
  - intros i Hi. destruct (Hat i) as [e1 [e2 [A1 [A2 E]]]]; [lia|].
    exists (ciType_unwrap e1). split; apply type_at_Ok.
    + split; [lia|]. now exists e1.
    + split; [lia|]. now exists e2.
  - destruct (Hat (_count s1)) as [e1 [e2 [A1 [A2 E]]]]; [lia|].
    exists (ciType_unwrap e1). unfold return_type.
    rewrite <- Hc, A1, A2. cbn [bind]. split; congruence.
Qed.

Lemma equals_ignores_never_null_wrapping_witness :
  exists s1 s2,
    ciSignature_of_method_type (Some klass_A) sym_JQPoint_QPoint mt_JQPoint_QPoint = Ok s1 /\
    ciSignature_of_method_type (Some klass_B) sym_JQPoint_QPoint mt_JLPoint_LPoint = Ok s2 /\
    is_never_null_at s1 1 = Ok true /\
    is_never_null_at s2 1 = Ok false /\
    returns_never_null s1 = Ok true /\
    returns_never_null s2 = Ok false /\
    equals s1 s2 = Ok true.
Proof.
  do 2 eexists.
  split; [vm_compute; reflexivity|].
  split; [vm_compute; reflexivity|].
  do 4 (split; [reflexivity|]).
  apply equals_ignores_never_null_wrapping.
  - split; cbn; lia.
  - split; cbn; lia.
  - reflexivity.
  - reflexivity.
Defined.

(** ** The two constructors agree *)

Lemma position_matches_element env k cp (tok : SigToken) (p : ciType * bool) :
  position_matches env k cp tok p ->
  wrapped (fst p) (snd p) = element_of env k cp tok.
Proof.
  intros [Ht Hn]. unfold element_of. rewrite <- Ht. unfold wrapped.
  destruct (ciType_is_valuetype (fst p)) eqn:V; [|reflexivity].
  now rewrite Hn.
Qed.

Lemma positions_match_elements env k cp (toks : list SigToken) (ps : list (ciType * bool)) :
  Forall2 (position_matches env k cp) toks ps ->
  map (fun p => wrapped (fst p) (snd p)) ps = map (element_of env k cp) toks.
Proof.
  induction 1 as [|tok p toks ps Hp _ IH]; [reflexivity|].
  cbn [map]. now rewrite IH, (position_matches_element _ _ _ _ _ Hp).
Qed.

Lemma positions_match_slots env k cp (toks : list SigToken) (ps : list (ciType * bool)) :
  Forall2 (position_matches env k cp) toks ps ->
  fold_right (fun p acc => type2size (ciType_basic_type (fst p)) + acc) 0 ps
  = sum_sizes (map (element_of env k cp) toks).
Proof.
  induction 1 as [|tok p toks ps Hp _ IH]; [reflexivity|].
  cbn [map fold_right]. unfold sum_sizes in *. cbn [fold_right]. rewrite IH.
  f_equal. rewrite <- (position_matches_element _ _ _ _ _ Hp), size_wrapped.
  reflexivity.
Qed.

(** C6: when a method type and a descriptor symbol describe the same
    method shape, the constructor from the method type and the constructor
    from the symbol both succeed and produce the same element array, the
    same [_size] and [_count], and signatures that answer the never-null
    queries alike at every index and at the return position. *)
Theorem constructors_agree_on_equivalent_descriptors :
  forall env k cp symbol mt acc,
    equivalent_descriptors env k cp symbol mt ->
    exists s1 s2,
      ciSignature_of_method_type acc symbol mt = Ok s1 /\
      ciSignature_of_symbol env (Some k) cp symbol = Ok s2 /\
      _types s1 = _types s2 /\
      _size s1 = _size s2 /\
      _count s1 = _count s2 /\
      _symbol s1 = _symbol s2 /\
      (forall i, is_never_null_at s1 i = is_never_null_at s2 i) /\
      (forall i, type_at s1 i = type_at s2 i) /\
      returns_never_null s1 = returns_never_null s2 /\
      maybe_returns_never_null s1 = maybe_returns_never_null s2 /\
      return_type s1 = return_type s2.
Proof.
  intros env k cp symbol mt acc [Hp Hr].
  do 2 eexists.
  split; [apply ciSignature_of_method_type_Ok|].
  split; [apply ciSignature_of_symbol_Ok|].
  cbn [_types _size _count _symbol].
  assert (Ht : map (fun p => wrapped (fst p) (snd p)) (mt_ptypes mt)
                 ++ [wrapped (fst (mt_rtype mt)) (snd (mt_rtype mt))]
               = map (element_of env k cp) (sym_params symbol)
                 ++ [element_of env k cp (sym_return symbol)]).
  { now rewrite (positions_match_elements _ _ _ _ _ Hp),
                (position_matches_element _ _ _ _ _ Hr). }
  assert (Hs : ptype_slot_count mt
               = sum_sizes (map (element_of env k cp) (sym_params symbol)))
    by apply (positions_match_slots _ _ _ _ _ Hp).
  assert (Hc : ptype_count mt = Z.of_nat (length (sym_params symbol))).
  { unfold ptype_count. f_equal. symmetry. eapply Forall2_length, Hp. }
  split; [exact Ht|]. split; [exact Hs|]. split; [exact Hc|]. split; [reflexivity|].
  unfold is_never_null_at, type_at, returns_never_null, maybe_returns_never_null,
    return_type.
  cbn [_types _size _count _symbol]. rewrite Ht, Hc.
  repeat split; reflexivity.
Qed.

Lemma constructors_agree_on_equivalent_descriptors_witness :
  exists s1 s2,
    ciSignature_of_method_type (Some klass_A) sym_JQPoint_QPoint mt_JQPoint_QPoint = Ok s1 /\
    ciSignature_of_symbol example_env (Some klass_A) 0 sym_JQPoint_QPoint = Ok s2 /\
    _types s1 = _types s2 /\
    _size s1 = _size s2 /\
    _count s1 = _count s2.
Proof.
  destruct (constructors_agree_on_equivalent_descriptors
              example_env klass_A 0%nat sym_JQPoint_QPoint mt_JQPoint_QPoint
              (Some klass_A))
    as [s1 [s2 [H1 [H2 [Ht [Hs [Hc _]]]]]]].
  - split.
    + repeat constructor.
    + split; [reflexivity | intros _; reflexivity].
  - exists s1, s2. repeat split; assumption.
Defined.

(** * Further properties of the queries and constructors *)

(** ** [equals] as a relation *)

Lemma succeeds_Ok {A : Type} (r : result A) :
  succeeds r = true -> exists a, r = Ok a.
Proof. destruct r as [a|f]; [now exists a | discriminate]. Qed.

Lemma return_type_well_sized (s : ciSignature) :
  well_sized s -> exists t, return_type s = Ok t.
Proof.
  intros [P W].
  destruct (GrowableArray_at_in_range (_types s) (_count s)) as [e [He _]]; [lia|].
  exists (ciType_unwrap e). unfold return_type. now rewrite He.
Qed.

Lemma type_at_well_sized (s : ciSignature) (i : Z) :
  well_sized s -> 0 <= i < _count s -> exists t, type_at s i = Ok t.
Proof.
  intros [P W] Hi. apply succeeds_Ok, type_at_in_range; lia.
Qed.

Lemma equals_answers (this that : ciSignature) :
  well_sized this -> well_sized that -> _count this <= _count that ->
  exists b, equals this that = Ok b.
Proof.
  intros W1 W2 Hc. unfold equals.
  destruct (ciSymbol_equals (_symbol this) (_symbol that)); cbn [negb];
    [|now exists false].
  destruct (equals_args_defined this that (Z.to_nat (_count this)) 0) as [args Hargs].
  { intros k Hk. destruct W1 as [P1 L1], W2 as [P2 L2].
    split; apply type_at_in_range; lia. }
  rewrite Hargs. cbn [bind]. destruct args; cbn [negb]; [|now exists false].
  destruct (return_type_well_sized _ W1) as [a ->].
  destruct (return_type_well_sized _ W2) as [b ->].
  cbn [bind]. destruct (ciType_eqb a b); cbn [negb]; eexists; reflexivity.
Qed.

(** X1: a signature that holds its parameters and its return type is equal
    to itself. *)
Theorem equals_reflexive :
  forall s, well_sized s -> equals s s = Ok true.
Proof.
  intros s W. apply equals_true_iff. split; [reflexivity|]. split.
  - intros i Hi. destruct (type_at_well_sized s i W Hi) as [t Ht]. now exists t.
  - destruct (return_type_well_sized s W) as [t Ht]. now exists t.
Qed.

Lemma equals_reflexive_witness :
  exists s,
    ciSignature_of_symbol example_env (Some klass_A) 0 sym_IDQPoint_V = Ok s /\
    equals s s = Ok true.
Proof.
  eexists. split; [vm_compute; reflexivity|].
  apply equals_reflexive. split; cbn; lia.
Defined.

(** X2: [equals] is transitive, whatever the three signatures are. *)
Theorem equals_transitive :
  forall a b c,
    equals a b = Ok true -> equals b c = Ok true -> equals a c = Ok true.
Proof.
  intros a b c Hab Hbc.
  apply equals_true_iff in Hab as [Sab [Aab [r [Ra Rb]]]].
  apply equals_true_iff in Hbc as [Sbc [Abc [r' [Rb' Rc]]]].
  apply equals_true_iff. split; [congruence|]. split.
  - intros i Hi. destruct (Aab i Hi) as [t [Ta Tb]].
    assert (Hib : 0 <= i < _count b).
    { apply type_at_Ok in Tb as [Hlt _]. lia. }
    destruct (Abc i Hib) as [t' [Tb' Tc]].
    exists t. split; [assumption|]. congruence.
  - exists r. split; [assumption|]. congruence.
Qed.

Lemma equals_transitive_witness :
  exists s1 s2 s3,
    ciSignature_of_symbol example_env (Some klass_A) 0 sym_JQPoint_QPoint = Ok s1 /\
    ciSignature_of_method_type (Some klass_B) sym_JQPoint_QPoint mt_JLPoint_LPoint = Ok s2 /\
    ciSignature_of_method_type None sym_JQPoint_QPoint mt_JQPoint_QPoint = Ok s3 /\
    equals s1 s3 = Ok true.
Proof.
  do 3 eexists.
  do 3 (split; [vm_compute; reflexivity|]).
  match goal with
  | |- equals ?s1 ?s3 = _ =>
      apply (equals_transitive s1
               (mkSignature sym_JQPoint_QPoint (Some klass_B)
                  [ciPrimitive T_LONG; ciKlassType Point; ciKlassType Point] 3 2) s3)
  end; reflexivity.
Defined.

Lemma equals_true_count_le (a b : ciSignature) :
  equals a b = Ok true -> _count a <= _count b.
Proof.
  intro H. apply equals_true_iff in H as [S [A [r [Ra Rb]]]].
  pose proof (return_type_Ok _ _ Ra) as Ca.
  pose proof (return_type_Ok _ _ Rb) as Cb.
  destruct (Z.eq_dec (_count a) 0) as [E|E]; [lia|].
  destruct (A (_count a - 1)) as [t [_ Tb]]; [lia|].
  apply type_at_Ok in Tb as [Hlt _]. lia.
Qed.

Lemma equals_true_swap (a b : ciSignature) :
  equals a b = Ok true -> _count b <= _count a -> equals b a = Ok true.
Proof.
  intros H Hge. apply equals_true_iff in H as [S [A [r [Ra Rb]]]].
  apply equals_true_iff. split; [congruence|]. split.
  - intros i Hi. destruct (A i) as [t [Ta Tb]]; [lia|]. now exists t.
  - now exists r.
Qed.

(** X3: [equals] never looks at [_count] itself.  When it answers true the
    receiver has at most as many parameters as the argument, and the
    comparison the other way round answers true as well once the counts
    coincide. *)
Theorem equals_true_counts :
  forall a b,
    equals a b = Ok true ->
    _count a <= _count b /\
    (_count b <= _count a -> equals b a = Ok true).
Proof.
  intros a b H. split.
  - now apply equals_true_count_le.
  - now apply equals_true_swap.
Qed.

Lemma equals_true_counts_witness :
  exists s1 s2,
    ciSignature_of_method_type (Some klass_A) sym_JQPoint_QPoint mt_JQPoint_QPoint = Ok s1 /\
    ciSignature_of_method_type (Some klass_B) sym_JQPoint_QPoint mt_JLPoint_LPoint = Ok s2 /\
    equals s1 s2 = Ok true /\
    equals s2 s1 = Ok true.
Proof.
  do 2 eexists.
  do 2 (split; [vm_compute; reflexivity|]).
  match goal with
  | |- equals ?s1 ?s2 = _ /\ _ =>
      pose proof (equals_true_counts s1 s2 eq_refl) as [_ H]
  end.
  split; [reflexivity|]. apply H. cbn. lia.
Defined.

Lemma ciSymbol_equals_sym (a b : ciSymbol) :
  ciSymbol_equals a b = ciSymbol_equals b a.
Proof.
  destruct (ciSymbol_equals a b) eqn:E1, (ciSymbol_equals b a) eqn:E2;
    try reflexivity.
  - apply ciSymbol_equals_eq in E1. subst b.
    rewrite (proj2 (ciSymbol_equals_eq a a) eq_refl) in E2. discriminate.
  - apply ciSymbol_equals_eq in E2. subst b.
    rewrite (proj2 (ciSymbol_equals_eq a a) eq_refl) in E1. discriminate.
Qed.

Lemma of_symbol_well_sized env acc cp (symbol : ciSymbol) (s : ciSignature) :
  ciSignature_of_symbol env acc cp symbol = Ok s -> well_sized s.
Proof.
  intro H. apply constructed_well_sized.
  exact (constructed_of_symbol env acc cp symbol s H).
Qed.

Lemma of_symbol_fields env acc cp (symbol : ciSymbol) (s : ciSignature) :
  ciSignature_of_symbol env acc cp symbol = Ok s ->
  _symbol s = symbol /\ _count s = Z.of_nat (length (sym_params symbol)).
Proof.
  intro H. destruct (ciSignature_of_symbol_inv _ _ _ _ _ H) as [k [_ ->]].
  split; reflexivity.
Qed.

(** X4: between signatures built from descriptor symbols, in whatever
    environments and for whatever accessing classes, [equals] always
    answers, and answers the same in both directions. *)
Theorem equals_symmetric_on_descriptors :
  forall env1 env2 acc1 acc2 cp1 cp2 symbol1 symbol2 s1 s2,
    ciSignature_of_symbol env1 acc1 cp1 symbol1 = Ok s1 ->
    ciSignature_of_symbol env2 acc2 cp2 symbol2 = Ok s2 ->
    exists b, equals s1 s2 = Ok b /\ equals s2 s1 = Ok b.
Proof.
  intros env1 env2 acc1 acc2 cp1 cp2 symbol1 symbol2 s1 s2 H1 H2.
  pose proof (of_symbol_well_sized _ _ _ _ _ H1) as W1.
  pose proof (of_symbol_well_sized _ _ _ _ _ H2) as W2.
  destruct (of_symbol_fields _ _ _ _ _ H1) as [S1 C1].
  destruct (of_symbol_fields _ _ _ _ _ H2) as [S2 C2].
  destruct (ciSymbol_equals (_symbol s1) (_symbol s2)) eqn:E.
  - assert (Hc : _count s1 = _count s2).
    { apply ciSymbol_equals_eq in E. rewrite C1, C2. congruence. }
    destruct (equals_answers s1 s2 W1 W2) as [b1 B1]; [lia|].
    destruct (equals_answers s2 s1 W2 W1) as [b2 B2]; [lia|].
    exists b1. split; [assumption|]. rewrite B2. f_equal.
    destruct b1, b2; try reflexivity.
    + rewrite (equals_true_swap s1 s2 B1) in B2 by lia. discriminate.
    + rewrite (equals_true_swap s2 s1 B2) in B1 by lia. discriminate.
  - exists false. unfold equals.
    rewrite <- (ciSymbol_equals_sym (_symbol s1) (_symbol s2)), E. split; reflexivity.
Qed.

Lemma equals_symmetric_on_descriptors_witness :
  exists s1 s2,
    ciSignature_of_symbol example_env (Some klass_A) 0 sym_String_I = Ok s1 /\
    ciSignature_of_symbol anomalous_env (Some klass_B) 1 sym_String_I = Ok s2 /\
    exists b, equals s1 s2 = Ok b /\ equals s2 s1 = Ok b.
Proof.
  do 2 eexists.
  do 2 (split; [vm_compute; reflexivity|]).
  exact (equals_symmetric_on_descriptors
           example_env anomalous_env (Some klass_A) (Some klass_B) 0%nat 1%nat
           sym_String_I sym_String_I _ _ eq_refl eq_refl).
Defined.

(** ** [equals] on signatures of different arity *)

Lemma equals_args_fails (this that : ciSignature) (n : nat) :
  forall i j a f,
    i <= j < i + Z.of_nat n ->
    (forall k, i <= k < j ->
       exists t, type_at this k = Ok t /\ type_at that k = Ok t) ->
    type_at this j = Ok a -> type_at that j = Fail f ->
    equals_args this that n i = Fail f.
Proof.
  induction n as [|n IH]; intros i j a f Hj Hbelow Ha Hf; [lia|].
  cbn [equals_args]. destruct (Z.eq_dec j i) as [->|Hne].
  - now rewrite Ha, Hf.
  - destruct (Hbelow i) as [t [Ti Ui]]; [lia|].
    rewrite Ti, Ui. cbn [bind]. rewrite ciType_eqb_refl. cbn [negb].
    apply (IH (i + 1) j a f); try assumption; try lia.
    intros k Hk. apply Hbelow. lia.
Qed.

(** X5: handed an argument with the same symbol but fewer parameters,
    whose parameters all agree with the receiver's, [equals] does not
    answer: walking the receiver's parameters it reaches the argument's
    count and stops on the "out of bounds" assertion of [type_at]. *)
Theorem equals_asserts_on_shorter_argument :
  forall this that,
    _symbol this = _symbol that ->
    well_sized this ->
    0 <= _count that < _count this ->
    (forall i, 0 <= i < _count that ->
       exists t, type_at this i = Ok t /\ type_at that i = Ok t) ->
    equals this that = Fail OutOfBounds.
Proof.
  intros this that S W Hc Hagree. unfold equals.
  rewrite (proj2 (ciSymbol_equals_eq _ _) S). cbn [negb].
  destruct (type_at_well_sized this (_count that) W) as [a Ha]; [lia|].
  rewrite (equals_args_fails this that (Z.to_nat (_count this)) 0 (_count that) a OutOfBounds);
    try assumption; try lia; [reflexivity|].
  unfold type_at. now rewrite vmassert_false by (apply Z.ltb_ge; lia).
Qed.

Lemma equals_asserts_on_shorter_argument_witness :
  exists s1 s2,
    ciSignature_of_method_type (Some klass_A) sym_JQPoint_QPoint mt_JQPoint_QPoint = Ok s1 /\
    ciSignature_of_method_type (Some klass_A) sym_JQPoint_QPoint mt_J_QPoint = Ok s2 /\
    equals s1 s2 = Fail OutOfBounds /\
    equals s2 s1 = Ok true.
Proof.
  do 2 eexists.
  do 2 (split; [vm_compute; reflexivity|]).
  split; [|reflexivity].
  apply equals_asserts_on_shorter_argument.
  - reflexivity.
  - split; cbn; lia.
  - cbn. lia.
  - intros i Hi. cbn in Hi. assert (i = 0) as -> by lia.
    exists (ciPrimitive T_LONG). split; reflexivity.
Defined.

(** ** Never-null is a property of value types only *)

Lemma GrowableArray_at_In {A : Type} (a : list A) (i : Z) (x : A) :
  GrowableArray_at a i = Ok x -> In x a.
Proof.
  intro H. apply GrowableArray_at_Ok in H as [_ H]. eapply nth_error_In, H.
Qed.

Lemma well_formed_never_null (e : ciType) :
  ciType_well_formed e -> ciType_is_never_null e = true ->
  exists id, ciType_unwrap e = ciKlassType (ciValueKlass id).
Proof.
  destruct e as [bt | k | inner]; try discriminate.
  cbn. intros V _.
  destruct inner as [bt | [id l | id | id l] | inner']; try discriminate.
  now exists id.
Qed.

(** X6: on a signature produced by a constructor, a position reported as
    never null always holds a loaded value class: when [is_never_null_at]
    answers true, [type_at] answers a value class at that index, and when
    [returns_never_null] answers true, [return_type] answers a value
    class. *)
Theorem never_null_positions_are_value_types :
  forall s,
    constructed s ->
    (forall i, is_never_null_at s i = Ok true ->
       exists id, type_at s i = Ok (ciKlassType (ciValueKlass id))) /\
    (returns_never_null s = Ok true ->
       exists id, return_type s = Ok (ciKlassType (ciValueKlass id))).
Proof.
  intros s C.
  destruct (constructed_shape s C) as [params [ret [Ht [Hc Hwf]]]].
  rewrite <- Ht in Hwf. rewrite Forall_forall in Hwf.
  split.
  - intros i H. unfold is_never_null_at in H.
    apply bind_Ok in H as [[] [Ha H]]. apply bind_Ok in H as [e [He H]].
    injection H as H.
    destruct (well_formed_never_null e) as [id Hid];
      [eapply Hwf, GrowableArray_at_In, He | assumption |].
    exists id. unfold type_at. rewrite Ha. cbn [bind]. rewrite He. cbn [bind].
    now rewrite Hid.
  - intro H. unfold returns_never_null in H.
    apply bind_Ok in H as [e [He H]]. injection H as H.
    destruct (well_formed_never_null e) as [id Hid];
      [eapply Hwf, GrowableArray_at_In, He | assumption |].
    exists id. unfold return_type. rewrite He. cbn [bind]. now rewrite Hid.
Qed.

Lemma never_null_positions_are_value_types_witness :
  exists s,
    ciSignature_of_symbol example_env (Some klass_A) 0 sym_JQPoint_QPoint = Ok s /\
    (exists id, type_at s 1 = Ok (ciKlassType (ciValueKlass id))) /\
    (exists id, return_type s = Ok (ciKlassType (ciValueKlass id))).
Proof.
  eexists. split; [vm_compute; reflexivity|].
  match goal with
  | |- (exists id, type_at ?s _ = _) /\ _ =>
      destruct (never_null_positions_are_value_types s
                  (constructed_of_symbol example_env (Some klass_A) 0%nat
                     sym_JQPoint_QPoint s eq_refl)) as [Hp Hr]
  end.
  split; [apply Hp | apply Hr]; reflexivity.
Defined.

(** ** Queries on a signature built from a descriptor symbol *)

Lemma resolve_token_cases env k cp (tok : SigToken) :
  resolve_token env k cp tok
  = if is_reference_type (tok_type tok)
    then ciKlassType (get_klass_by_name_impl env k cp (tok_name tok))
    else ciPrimitive (tok_type tok).
Proof. unfold resolve_token, ciType_make. now destruct (is_reference_type (tok_type tok)). Qed.

Lemma is_never_null_element_of env k cp (tok : SigToken) :
  ciType_is_never_null (element_of env k cp tok)
  = ciType_is_valuetype (resolve_token env k cp tok) && is_Q_token tok.
Proof. apply is_never_null_wrapped, resolve_token_not_wrapper. Qed.

Lemma of_symbol_shape env k cp (symbol : ciSymbol) (s : ciSignature) :
  ciSignature_of_symbol env (Some k) cp symbol = Ok s ->
  _types s = map (element_of env k cp) (sym_params symbol)
               ++ [element_of env k cp (sym_return symbol)] /\
  _count s = Z.of_nat (length (map (element_of env k cp) (sym_params symbol))) /\
  _size s = sum_sizes (map (element_of env k cp) (sym_params symbol)) /\
  _symbol s = symbol.
Proof.
  intro H. rewrite ciSignature_of_symbol_Ok in H. injection H as <-.
  cbn [_types _count _size _symbol]. rewrite length_map. repeat split.
Qed.

(** X7: on a signature built from a descriptor symbol, [type_at] answers
    what the token at that position denotes, whether or not the element was
    wrapped: the primitive entity for a primitive token, the class the
    environment resolved the name to for a reference token; [return_type]
    does the same for the return token. *)
Theorem type_at_is_the_resolved_token :
  forall env k cp symbol s,
    ciSignature_of_symbol env (Some k) cp symbol = Ok s ->
    (forall (i : nat) tok,
        nth_error (sym_params symbol) i = Some tok ->
        type_at s (Z.of_nat i)
        = Ok (if is_reference_type (tok_type tok)
              then ciKlassType (get_klass_by_name_impl env k cp (tok_name tok))
              else ciPrimitive (tok_type tok))) /\
    return_type s
    = Ok (if is_reference_type (tok_type (sym_return symbol))
          then ciKlassType (get_klass_by_name_impl env k cp (tok_name (sym_return symbol)))
          else ciPrimitive (tok_type (sym_return symbol))).
Proof.
  intros env k cp symbol s H. split.
  - intros i tok Hi. rewrite <- resolve_token_cases.
    now apply (type_at_of_symbol _ _ _ symbol).
  - rewrite <- resolve_token_cases. now apply return_type_of_symbol.
Qed.

Lemma type_at_is_the_resolved_token_witness :
  exists s,
    ciSignature_of_symbol example_env (Some klass_A) 0 sym_IDQPoint_V = Ok s /\
    type_at s 1 = Ok (ciPrimitive T_DOUBLE) /\
    type_at s 2 = Ok (ciKlassType Point) /\
    return_type s = Ok (ciPrimitive T_VOID).
Proof.
  eexists. split; [vm_compute; reflexivity|].
  match goal with
  | |- type_at ?s _ = _ /\ _ =>
      destruct (type_at_is_the_resolved_token
                  example_env klass_A 0%nat sym_IDQPoint_V s eq_refl) as [Hp Hr]
  end.
  split; [exact (Hp 1%nat (prim T_DOUBLE) eq_refl)|].
  split; [exact (Hp 2%nat (Q "Point") eq_refl) | exact Hr].
Defined.

(** X8: on a signature built from a descriptor symbol, [is_never_null_at]
    answers true at a parameter exactly when its token carries the
    never-null marker and its name resolved to a value class. *)
Theorem is_never_null_at_of_descriptor :
  forall env k cp symbol s,
    ciSignature_of_symbol env (Some k) cp symbol = Ok s ->
    forall (i : nat) tok,
      nth_error (sym_params symbol) i = Some tok ->
      is_never_null_at s (Z.of_nat i)
      = Ok (BasicType_eqb (tok_type tok) T_VALUETYPE
            && ciKlass_is_valuetype (get_klass_by_name_impl env k cp (tok_name tok))).
Proof.
  intros env k cp symbol s H i tok Hi.
  destruct (of_symbol_shape _ _ _ _ _ H) as [Ht [Hc _]].
  rewrite (shape_is_never_null_at s _ _ Ht Hc i (element_of env k cp tok))
    by now rewrite nth_error_map, Hi.
  rewrite is_never_null_element_of, resolve_token_cases. unfold is_Q_token.
  destruct (BasicType_eqb (tok_type tok) T_VALUETYPE) eqn:E.
  - apply BasicType_eqb_eq in E. rewrite E. cbn. now rewrite andb_true_r.
  - now rewrite andb_false_r.
Qed.

Lemma is_never_null_at_of_descriptor_witness :
  exists s,
    ciSignature_of_symbol example_env (Some klass_A) 0 sym_IDQPoint_V = Ok s /\
    is_never_null_at s 2 = Ok true /\
    is_never_null_at s 0 = Ok false.
Proof.
  eexists. split; [vm_compute; reflexivity|].
  match goal with
  | |- is_never_null_at ?s _ = _ /\ _ =>
      pose proof (is_never_null_at_of_descriptor
                    example_env klass_A 0%nat sym_IDQPoint_V s eq_refl) as H
  end.
  split; [exact (H 2%nat (Q "Point") eq_refl) | exact (H 0%nat (prim T_INT) eq_refl)].
Defined.

(** X9: on a signature built from a descriptor symbol,
    [maybe_returns_never_null] answers true exactly when the return token
    carries the never-null marker and its name resolved either to a value
    class or to an instance class that is not loaded; without the marker
    it answers false whatever the class is. *)
Theorem maybe_returns_never_null_of_descriptor :
  forall env k cp symbol s,
    ciSignature_of_symbol env (Some k) cp symbol = Ok s ->
    let klass := get_klass_by_name_impl env k cp (tok_name (sym_return symbol)) in
    maybe_returns_never_null s
    = Ok (BasicType_eqb (tok_type (sym_return symbol)) T_VALUETYPE
          && (ciKlass_is_valuetype klass
              || ciKlass_is_instance_klass klass && negb (ciKlass_is_loaded klass))).
Proof.
  intros env k cp symbol s H klass.
  destruct (of_symbol_shape _ _ _ _ _ H) as [Ht [Hc [_ Hs]]].
  unfold maybe_returns_never_null.
  rewrite (shape_return_element s _ _ Ht Hc). cbn [bind].
  rewrite is_never_null_element_of, Hs.
  unfold is_Q_method_signature, is_Q_token, element_of, wrapped, is_Q_token.
  rewrite resolve_token_cases. fold klass.
  destruct (BasicType_eqb (tok_type (sym_return symbol)) T_VALUETYPE) eqn:E.
  - apply BasicType_eqb_eq in E. rewrite E. cbn.
    destruct klass as [id l | id | id l]; cbn; try reflexivity.
    now destruct l.
  - rewrite !andb_false_r. cbn [andb].
    destruct (is_reference_type (tok_type (sym_return symbol))); cbn;
      [|reflexivity].
    destruct klass as [id l | id | id l]; cbn; try reflexivity.
    now destruct l.
Qed.

Lemma maybe_returns_never_null_of_descriptor_witness :
  exists s1 s2,
    ciSignature_of_symbol example_env (Some klass_A) 0 sym_QLazy_QLazy = Ok s1 /\
    ciSignature_of_symbol example_env (Some klass_A) 0 sym_String_I = Ok s2 /\
    maybe_returns_never_null s1 = Ok true /\
    maybe_returns_never_null s2 = Ok false.
Proof.
  do 2 eexists.
  do 2 (split; [vm_compute; reflexivity|]).
  split.
  - exact (maybe_returns_never_null_of_descriptor
             example_env klass_A 0%nat sym_QLazy_QLazy _ eq_refl).
  - exact (maybe_returns_never_null_of_descriptor
             example_env klass_A 0%nat sym_String_I _ eq_refl).
Defined.

(** ** The slot size is a function of the descriptor *)

Lemma type2size_bounds (bt : BasicType) : 0 <= type2size bt <= 2.
Proof. destruct bt; cbn; lia. Qed.

Lemma size_element_of env k cp (tok : SigToken) :
  ciType_size (element_of env k cp tok) = type2size (tok_type tok).
Proof.
  unfold element_of. rewrite size_wrapped, resolve_token_cases.
  destruct (tok_type tok) eqn:E; cbn; try reflexivity;
    now destruct (get_klass_by_name_impl env k cp (tok_name tok)).
Qed.

Lemma sum_sizes_elements env k cp (toks : list SigToken) :
  sum_sizes (map (element_of env k cp) toks)
  = fold_right (fun tok acc => type2size (tok_type tok) + acc) 0 toks.
Proof.
  induction toks as [|tok toks IH]; [reflexivity|].
  unfold sum_sizes in *. cbn [map fold_right].
  now rewrite IH, size_element_of.
Qed.

Lemma fold_type2size_bounds (toks : list SigToken) :
  0 <= fold_right (fun tok acc => type2size (tok_type tok) + acc) 0 toks
    <= 2 * Z.of_nat (length toks).
Proof.
  induction toks as [|tok toks IH]; [cbn; lia|].
  cbn [fold_right length]. pose proof (type2size_bounds (tok_type tok)). lia.
Qed.

(** X10: the [_size] of a signature built from a descriptor symbol depends
    on the basic types of the parameter tokens alone, not on what the names
    resolve to: it is the sum of their word sizes, hence between zero and
    twice [_count]. *)
Theorem slot_size_of_descriptor :
  forall env acc cp symbol s,
    ciSignature_of_symbol env acc cp symbol = Ok s ->
    _size s = fold_right (fun tok acc => type2size (tok_type tok) + acc) 0
                (sym_params symbol) /\
    0 <= _size s <= 2 * _count s.
Proof.
  intros env acc cp symbol s H.
  destruct (ciSignature_of_symbol_inv _ _ _ _ _ H) as [k [-> ->]].
  cbn [_size _count]. rewrite sum_sizes_elements.
  split; [reflexivity | apply fold_type2size_bounds].
Qed.

Lemma slot_size_of_descriptor_witness :
  exists s1 s2,
    ciSignature_of_symbol example_env (Some klass_A) 0 sym_String_I = Ok s1 /\
    ciSignature_of_symbol anomalous_env (Some klass_B) 1 sym_String_I = Ok s2 /\
    _size s1 = _size s2 /\ 0 <= _size s1 <= 2 * _count s1.
Proof.
  do 2 eexists.
  do 2 (split; [vm_compute; reflexivity|]).
  match goal with
  | |- _size ?s1 = _size ?s2 /\ _ =>
      destruct (slot_size_of_descriptor example_env (Some klass_A) 0%nat
                  sym_String_I s1 eq_refl) as [E1 B1];
      destruct (slot_size_of_descriptor anomalous_env (Some klass_B) 1%nat
                  sym_String_I s2 eq_refl) as [E2 _]
  end.
  split; [now rewrite E1, E2 | exact B1].
Defined.

(** ** What the descriptor constructor asks of the environment *)

Lemma element_of_ext env1 env2 k1 k2 cp1 cp2 (tok : SigToken) :
  (is_reference_type (tok_type tok) = true ->
   get_klass_by_name_impl env1 k1 cp1 (tok_name tok)
   = get_klass_by_name_impl env2 k2 cp2 (tok_name tok)) ->
  element_of env1 k1 cp1 tok = element_of env2 k2 cp2 tok.
Proof.
  intro H. unfold element_of. rewrite !resolve_token_cases.
  destruct (is_reference_type (tok_type tok)); [now rewrite H|reflexivity].
Qed.

(** X11: the descriptor constructor consults the environment for the
    names of reference tokens only.  Two constructions of one symbol, for
    any accessing classes and constant pools, store the same elements, size
    and count as soon as the names of its reference tokens resolve alike;
    for a symbol with primitive tokens only they always do. *)
Theorem descriptor_constructor_resolves_references_only :
  forall env1 env2 k1 k2 cp1 cp2 symbol s1 s2,
    ciSignature_of_symbol env1 (Some k1) cp1 symbol = Ok s1 ->
    ciSignature_of_symbol env2 (Some k2) cp2 symbol = Ok s2 ->
    (forall tok,
        In tok (sym_params symbol ++ [sym_return symbol]) ->
        is_reference_type (tok_type tok) = true ->
        get_klass_by_name_impl env1 k1 cp1 (tok_name tok)
        = get_klass_by_name_impl env2 k2 cp2 (tok_name tok)) ->
    _types s1 = _types s2 /\ _size s1 = _size s2 /\ _count s1 = _count s2.
Proof.
  intros env1 env2 k1 k2 cp1 cp2 symbol s1 s2 H1 H2 Hsame.
  destruct (of_symbol_shape _ _ _ _ _ H1) as [T1 [C1 [Z1 _]]].
  destruct (of_symbol_shape _ _ _ _ _ H2) as [T2 [C2 [Z2 _]]].
  assert (Hmap : map (element_of env1 k1 cp1) (sym_params symbol)
                 = map (element_of env2 k2 cp2) (sym_params symbol)).
  { apply map_ext_in. intros tok Hin. apply element_of_ext. intro R.
    apply Hsame; [apply in_or_app; now left | assumption]. }
  assert (Hret : element_of env1 k1 cp1 (sym_return symbol)
                 = element_of env2 k2 cp2 (sym_return symbol)).
  { apply element_of_ext. intro R.
    apply Hsame; [apply in_or_app; right; now left | assumption]. }
  rewrite T1, T2, Z1, Z2, C1, C2, Hmap, Hret. repeat split.
Qed.

Lemma descriptor_constructor_resolves_references_only_witness :
  exists s1 s2,
    ciSignature_of_symbol example_env (Some klass_A) 0 sym_IDQPoint_V = Ok s1 /\
    ciSignature_of_symbol example_env (Some klass_B) 7 sym_IDQPoint_V = Ok s2 /\
    _types s1 = _types s2 /\ _size s1 = _size s2 /\ _count s1 = _count s2.
Proof.
  do 2 eexists.
  do 2 (split; [vm_compute; reflexivity|]).
  apply (descriptor_constructor_resolves_references_only
           example_env example_env klass_A klass_B 0%nat 7%nat sym_IDQPoint_V
           _ _ eq_refl eq_refl).
  intros tok _ _. reflexivity.
Defined.

(** ** Queries on a signature built from a method type *)

Lemma of_method_type_shape acc (symbol : ciSymbol) (mt : ciMethodType) (s : ciSignature) :
  ciSignature_of_method_type acc symbol mt = Ok s ->
  _types s = map (fun p => wrapped (fst p) (snd p)) (mt_ptypes mt)
               ++ [wrapped (fst (mt_rtype mt)) (snd (mt_rtype mt))] /\
  _count s = Z.of_nat (length (map (fun p => wrapped (fst p) (snd p)) (mt_ptypes mt))).
Proof.
  intro H. rewrite ciSignature_of_method_type_Ok in H. injection H as <-.
  cbn [_types _count]. rewrite length_map. split; reflexivity.
Qed.

(** X12: on a signature built from a method type that hands out plain
    (unwrapped) types, [type_at] and [return_type] answer the type the
    method type gave, and the never-null flag is kept only for value types:
    [is_never_null_at] and [returns_never_null] answer the flag for a
    value class and false for every other type, whatever its flag says. *)
Theorem never_null_flag_kept_for_value_types_only :
  forall acc symbol mt s,
    ciSignature_of_method_type acc symbol mt = Ok s ->
    (forall (i : nat) type never_null,
        nth_error (mt_ptypes mt) i = Some (type, never_null) ->
        ciType_is_wrapper type = false ->
        type_at s (Z.of_nat i) = Ok type /\
        is_never_null_at s (Z.of_nat i)
        = Ok (ciType_is_valuetype type && never_null)) /\
    (ciType_is_wrapper (fst (rtype mt)) = false ->
     return_type s = Ok (fst (rtype mt)) /\
     returns_never_null s
     = Ok (ciType_is_valuetype (fst (rtype mt)) && snd (rtype mt))).
Proof.
  intros acc symbol mt s H.
  destruct (of_method_type_shape _ _ _ _ H) as [Ht Hc].
  split.
  - intros i type never_null Hi W.
    assert (He : nth_error (map (fun p => wrapped (fst p) (snd p)) (mt_ptypes mt)) i
                 = Some (wrapped type never_null))
      by now rewrite nth_error_map, Hi.
    rewrite (shape_type_at s _ _ Ht Hc i _ He).
    rewrite (shape_is_never_null_at s _ _ Ht Hc i _ He).
    now rewrite unwrap_wrapped_plain, is_never_null_wrapped.
  - intro W. unfold rtype in *.
    rewrite (shape_return_type s _ _ Ht Hc).
    rewrite (shape_returns_never_null s _ _ Ht Hc).
    now rewrite unwrap_wrapped_plain, is_never_null_wrapped.
Qed.

Lemma never_null_flag_kept_for_value_types_only_witness :
  exists s,
    ciSignature_of_method_type None sym_String_I mt_String_never_null = Ok s /\
    type_at s 0 = Ok (ciKlassType String_klass) /\
    is_never_null_at s 0 = Ok false /\
    return_type s = Ok (ciKlassType Point) /\
    returns_never_null s = Ok true.
Proof.
  eexists. split; [vm_compute; reflexivity|].
  match goal with
  | |- type_at ?s _ = _ /\ _ =>
      destruct (never_null_flag_kept_for_value_types_only
                  None sym_String_I mt_String_never_null s eq_refl) as [Hp Hr]
  end.
  destruct (Hp 0%nat (ciKlassType String_klass) true eq_refl eq_refl) as [Ht Hn].
  destruct (Hr eq_refl) as [Hrt Hrn].
  repeat split; assumption.
Defined.
